(** * Botcraft: behaviour tree engine, inventory manager, protocol codec

    A shallow embedding of
    - [botcraft/AI/BehaviourTree.hpp]            (module [AI]),
    - [botcraft/Game/Inventory/InventoryManager.cpp] (module [Inventory]),
    - [protocolCraft/.../ServerboundKeyPacket.hpp], [SaltSignature.hpp],
      [SelectTrade.hpp]                          (module [ProtocolCraft]),
    followed by the properties of the specification that concern them. *)

From Stdlib Require Import ZArith List Lia Bool.
From coqutil Require Import Byte.
From stdpp Require Import gmap.
Import ListNotations.

Local Open Scope Z_scope.

(* ===================================================================== *)
(** ** Behaviour tree engine                                              *)
(* ===================================================================== *)

Module AI.

(** [enum class Status]. *)
Inductive Status : Set := Failure | Running | Success.

(** [Node<Context>]: the abstract class with the single virtual operation
    [Tick(Context&)].  A tick receives the context by reference and runs on
    a heap-allocated object, so it may change both.  [World] stands for
    everything a tick of that node reads and writes: the context and the
    fields of the node and of the nodes below it.  Two entries of a
    [children] vector that point to the same object are the same
    transformer of the same part of [World]. *)
Definition Node (World : Type) : Type := World -> Status * World.

(** [Composite<Context>]: the [children] vector and the iterator [it] into
    it, kept as the offset from [children.begin()]; [length children] is
    [children.end()]. *)
Record Composite (World : Type) : Type := mkComposite {
  children : list (Node World);
  it : nat
}.
Arguments mkComposite {World} _ _.
Arguments children {World} _.
Arguments it {World} _.

Section Nodes.
Context {World : Type}.

(** [children.begin()] *)
Definition begin : nat := 0%nat.

(** The default constructor: no child. *)
Definition Composite_new : Composite World := mkComposite [] begin.

(** [Composite::AddChild]: [push_back], then [it = children.begin()]. *)
Definition AddChild (self : Composite World) (child : Node World)
  : Composite World :=
  mkComposite (children self ++ [child]) begin.

(** [Leaf<Context>::Tick]: [return func(context)]. *)
Definition Leaf_Tick (func : World -> Status * World) : Node World :=
  fun context => func context.

(** [BehaviourTree<Context>::Tick]: [Failure] without a root, the root's
    tick otherwise. *)
Definition BehaviourTree_Tick (root : option (Node World)) : Node World :=
  fun context =>
    match root with
    | None => (Failure, context)
    | Some node => node context
    end.

(** The [while (it != children.end())] loop of [Sequence::Tick]: [rest] is
    the part of [children] from [it] on, [pos] the offset of [it]; the
    result has the status returned, the new offset of [it] and the
    context. *)
Fixpoint Sequence_loop (rest : list (Node World)) (pos : nat)
    (context : World) : Status * (nat * World) :=
  match rest with
  | [] =>
      (* all children succeeded *)
      (Success, (begin, context))
  | child :: rest' =>
      let '(child_status, context') := child context in
      match child_status with
      | Failure => (Failure, (begin, context'))
      | Running => (Running, (pos, context'))
      | Success => Sequence_loop rest' (S pos) context'
      end
  end.

(** [Sequence<Context>::Tick]. *)
Definition Sequence_Tick : Node (Composite World * World) :=
  fun '(self, context) =>
    let '(status, (it', context')) :=
      Sequence_loop (skipn (it self) (children self)) (it self) context in
    (status, (mkComposite (children self) it', context')).

(** The loop of [Selector::Tick]. *)
Fixpoint Selector_loop (rest : list (Node World)) (pos : nat)
    (context : World) : Status * (nat * World) :=
  match rest with
  | [] =>
      (* no child succeeded *)
      (Failure, (begin, context))
  | child :: rest' =>
      let '(child_status, context') := child context in
      match child_status with
      | Failure => Selector_loop rest' (S pos) context'
      | Running => (Running, (pos, context'))
      | Success => (Success, (begin, context'))
      end
  end.

(** [Selector<Context>::Tick]. *)
Definition Selector_Tick : Node (Composite World * World) :=
  fun '(self, context) =>
    let '(status, (it', context')) :=
      Selector_loop (skipn (it self) (children self)) (it self) context in
    (status, (mkComposite (children self) it', context')).

(** [Inverter<Context>::Tick], for a decorator whose [child] is set (the
    source dereferences [child] without a test). *)
Definition Inverter_Tick (child : Node World) : Node World :=
  fun context =>
    let '(child_status, context') := child context in
    match child_status with
    | Failure => (Success, context')
    | Running => (Running, context')
    | Success => (Failure, context')
    end.

(** [Succeeder<Context>::Tick]. *)
Definition Succeeder_Tick (child : Node World) : Node World :=
  fun context =>
    let '(child_status, context') := child context in
    match child_status with
    | Failure => (Success, context')
    | Running => (Running, context')
    | Success => (Success, context')
    end.

End Nodes.

(** [size_t]: 64 bits, arithmetic modulo [2^64]. *)
Definition SIZE_WIDTH : Z := 64.
Definition size_t_wrap (z : Z) : Z := z mod 2 ^ SIZE_WIDTH.

(** The fields of [Repeater<Context>], both [size_t]. *)
Record Repeater : Set := mkRepeater {
  n : Z;
  counter : Z
}.

(** [Repeater(const size_t n_)], as the source has it: [n = n_;] and then
    [conter = 0;].  [conter] is no member of the class and no name in
    scope; the member is [counter], and no statement of the class assigns
    it before [Tick] increments it.  So the constructor sets [n] and
    leaves in [counter] whatever the storage of the object holds: the
    [size_t] value [indeterminate]. *)
Definition Repeater_constructor (n_ indeterminate : Z) : Repeater :=
  mkRepeater n_ indeterminate.

(** The state the constructor is written to reach and does not, [n] set
    and [counter] at 0: a Repeater(n) that has not counted any failure.
    The properties that start "from a counter at 0" start here. *)
Definition Repeater_new (n_ : Z) : Repeater := mkRepeater n_ 0.

Section RepeaterTick.
Context {World : Type}.

(** [Repeater<Context>::Tick]. *)
Definition Repeater_Tick (child : Node World) : Node (Repeater * World) :=
  fun '(self, context) =>
    let '(child_status, context') := child context in
    match child_status with
    | Failure =>
        let counter' := size_t_wrap (counter self + 1) in
        if counter' =? n self
        then (Failure, (mkRepeater (n self) 0, context'))
        else (Running, (mkRepeater (n self) counter', context'))
    | Running => (Running, (self, context'))
    | Success => (Success, (mkRepeater (n self) 0, context'))
    end.

End RepeaterTick.

(** The statuses of successive ticks of a node whose own fields are [St].
    Before each tick the caller may do anything to the world (pass another
    context, or the same one changed): one function per tick. *)
Fixpoint tick_trace {St World : Type} (node : Node (St * World))
    (self : St) (context : World) (callers : list (World -> World))
  : list Status :=
  match callers with
  | [] => []
  | caller :: callers' =>
      let '(status, (self', context')) := node (self, caller context) in
      status :: tick_trace node self' context' callers'
  end.

(** The state after [k] ticks in a row on the same world. *)
Fixpoint after_ticks {St World : Type} (node : Node (St * World))
    (k : nat) (state : St * World) : St * World :=
  match k with
  | O => state
  | S k' => snd (node (after_ticks node k' state))
  end.

(** The status of tick number [k + 1]. *)
Definition status_of_tick {St World : Type} (node : Node (St * World))
    (k : nat) (state : St * World) : Status :=
  fst (node (after_ticks node k state)).

(** *** Vocabulary of the properties *)

(** The nodes of a list ticked once each, in order, every one returning
    [Success]: from world [w] to world [w']. *)
Inductive all_succeed {World : Type}
  : list (Node World) -> World -> World -> Prop :=
| all_succeed_nil (w : World) : all_succeed [] w w
| all_succeed_cons (child : Node World) (rest : list (Node World))
    (w w' w'' : World) :
    child w = (Success, w') -> all_succeed rest w' w'' ->
    all_succeed (child :: rest) w w''.

(** The nodes of a list ticked once each, in order, every one returning
    [Failure]. *)
Inductive all_fail {World : Type}
  : list (Node World) -> World -> World -> Prop :=
| all_fail_nil (w : World) : all_fail [] w w
| all_fail_cons (child : Node World) (rest : list (Node World))
    (w w' w'' : World) :
    child w = (Failure, w') -> all_fail rest w' w'' ->
    all_fail (child :: rest) w w''.

(** What a tick of a composite [self] does to its own fields, [result]
    being what the tick returns: the children are the same, the cursor is
    back at the beginning unless the status is [Running], and is on a
    child, at or after the place it started from, when it is. *)
Definition keeps_cursor {World : Type} (self : Composite World)
    (result : Status * (Composite World * World)) : Prop :=
  children (fst (snd result)) = children self /\
  (fst result <> Running -> it (fst (snd result)) = begin) /\
  (fst result = Running ->
   (it self <= it (fst (snd result)) < length (children self))%nat).

(** A node that returns [status] whenever it is ticked. *)
Definition always_returns {World : Type} (child : Node World)
    (status : Status) : Prop :=
  forall context, fst (child context) = status.

(** [Failure] and [Success] exchanged. *)
Definition invert (status : Status) : Status :=
  match status with
  | Failure => Success
  | Running => Running
  | Success => Failure
  end.

(** A leaf that fails, on a context without content. *)
Definition failing_leaf : Node unit :=
  Leaf_Tick (fun context => (Failure, context)).

(** A leaf that succeeds. *)
Definition succeeding_leaf : Node unit :=
  Leaf_Tick (fun context => (Success, context)).

(** A node ticked next to the fields [St] of another node, which it leaves
    alone. *)
Definition beside {St World : Type} (node : Node World) : Node (St * World) :=
  fun '(fields, context) =>
    let '(status, context') := node context in
    (status, (fields, context')).

(** The tree of the specification's first scenario: a selector over a
    sequence of a failing and a succeeding leaf, and a succeeding leaf.
    The fields of the inner sequence are part of the world of the
    selector. *)
Definition inner_sequence : Composite unit :=
  AddChild (AddChild Composite_new failing_leaf) succeeding_leaf.

Definition outer_selector : Composite (Composite unit * unit) :=
  AddChild (AddChild Composite_new Sequence_Tick) (beside succeeding_leaf).

Definition built_tree
  : Node (Composite (Composite unit * unit) * (Composite unit * unit)) :=
  BehaviourTree_Tick (Some Selector_Tick).

(** A context that records which leaf was ticked: [ticked] grows by the
    number of the leaf at each tick of it, and [waited] says whether the
    second leaf has already answered [Running] once. *)
Record Probe : Set := mkProbe {
  waited : bool;
  ticked : list nat
}.

Definition first_leaf : Node Probe :=
  Leaf_Tick (fun p => (Success, mkProbe (waited p) (ticked p ++ [1%nat]))).

Definition second_leaf : Node Probe :=
  Leaf_Tick (fun p =>
    if waited p
    then (Success, mkProbe true (ticked p ++ [2%nat]))
    else (Running, mkProbe true (ticked p ++ [2%nat]))).

Definition third_leaf : Node Probe :=
  Leaf_Tick (fun p => (Success, mkProbe (waited p) (ticked p ++ [3%nat]))).

(** The sequence of the three leaves, built child by child. *)
Definition three_leaves : Composite Probe :=
  AddChild (AddChild (AddChild Composite_new first_leaf) second_leaf)
    third_leaf.

End AI.

(* ===================================================================== *)
(** ** Inventory manager                                                  *)
(* ===================================================================== *)

Module Inventory.

(** What [InventoryManager.cpp] takes from headers that are not part of the
    sources at hand ([ProtocolCraft::Slot], and the two constants of
    [Inventory]): the slot type with its default constructed value, and the
    values of the constants.  They stay parameters. *)
Class Header : Type := {
  Slot : Type;
  Slot_new : Slot;                      (* [Slot()] *)
  PLAYER_INVENTORY_INDEX : Z;
  INVENTORY_HOTBAR_START : Z
}.

(** Conversion to [short] (16 bits, two's complement). *)
Definition to_short (z : Z) : Z := (z + 32768) mod 65536 - 32768.

Section Manager.
Context `{Header}.

(** Modelled from the spec: the class [Inventory] ([Inventory.hpp] is
    missing), an ordered sparse mapping from slot index to [Slot];
    [GetSlots()] is the map itself and [GetSlot] gives the empty slot where
    the map has none. *)
Record Inventory : Type := mkInventory {
  slots : gmap Z Slot
}.

Definition Inventory_new : Inventory := mkInventory ∅.

Definition Inventory_GetSlot (self : Inventory) (index : Z) : Slot :=
  default Slot_new (slots self !! to_short index).

(** The fields of [InventoryManager] (the mutex apart): [inventories] is
    the [std::map<short, std::shared_ptr<Inventory>>]. *)
Record InventoryManager : Type := mkInventoryManager {
  inventories : gmap Z Inventory;
  index_hotbar_selected : Z;
  cursor : Slot
}.

(** [InventoryManager::InventoryManager()]. *)
Definition InventoryManager_new : InventoryManager :=
  mkInventoryManager ∅ 0 Slot_new.

(** [InventoryManager::SetSlot(const short window_id, const short index,
    const Slot&)]. *)
Definition SetSlot (window_id index : Z) (slot : Slot)
    (self : InventoryManager) : InventoryManager :=
  let window_id := to_short window_id in
  let index := to_short index in
  match inventories self !! window_id with
  | None =>
      mkInventoryManager
        (<[window_id := mkInventory (<[index := slot]> (slots Inventory_new))]>
           (inventories self))
        (index_hotbar_selected self) (cursor self)
  | Some inventory =>
      mkInventoryManager
        (<[window_id := mkInventory (<[index := slot]> (slots inventory))]>
           (inventories self))
        (index_hotbar_selected self) (cursor self)
  end.

(** [InventoryManager::GetInventory(const short window_id)]: [None] is the
    null pointer. *)
Definition GetInventory (window_id : Z) (self : InventoryManager)
  : option Inventory :=
  inventories self !! to_short window_id.

Definition GetPlayerInventory (self : InventoryManager) : option Inventory :=
  GetInventory PLAYER_INVENTORY_INDEX self.

(** [InventoryManager::GetHotbarSelected() const].  The result is the value
    the function returns: [Some] for a [return] statement, [None] when
    control reaches the closing brace of this value-returning function
    without one.  The source has a [return] in the branch of the null
    inventory only; in the other branch it evaluates
    [inventory->GetSlot(...)] as an expression statement and ends. *)
Definition GetHotbarSelected (self : InventoryManager) : option Slot :=
  match GetPlayerInventory self with
  | None => Some Slot_new
  | Some inventory =>
      let _ := Inventory_GetSlot inventory
                 (INVENTORY_HOTBAR_START + index_hotbar_selected self) in
      None
  end.

(** [InventoryManager::EraseInventory]. *)
Definition EraseInventory (window_id : Z) (self : InventoryManager)
  : InventoryManager :=
  mkInventoryManager (delete (to_short window_id) (inventories self))
    (index_hotbar_selected self) (cursor self).

(** [InventoryManager::AddInventory]. *)
Definition AddInventory (window_id : Z) (self : InventoryManager)
  : InventoryManager :=
  mkInventoryManager (<[to_short window_id := Inventory_new]> (inventories self))
    (index_hotbar_selected self) (cursor self).

(** [InventoryManager::SetHotbarSelected(const short index)]. *)
Definition SetHotbarSelected (index : Z) (self : InventoryManager)
  : InventoryManager :=
  mkInventoryManager (inventories self) (to_short index) (cursor self).

Definition GetCursor (self : InventoryManager) : Slot := cursor self.

Definition SetCursor (c : Slot) (self : InventoryManager) : InventoryManager :=
  mkInventoryManager (inventories self) (index_hotbar_selected self) c.

(** Modelled from the spec: the four message classes the manager handles
    (their headers are missing), with the fields it reads through their
    getters and the C++ types of these: [SetSlot] window id and slot
    [short]; [WindowItems] window id [short], count [int]; [OpenWindow]
    window id [int]; [HeldItemChangeClientbound] slot [char]. *)
Record SetSlotMsg : Type := mkSetSlot {
  SetSlot_WindowId : Z;
  SetSlot_Slot : Z;
  SetSlot_SlotData : Slot
}.

Record WindowItemsMsg : Type := mkWindowItems {
  WindowItems_WindowId : Z;
  WindowItems_Count : Z;
  WindowItems_SlotData : list Slot
}.

Record OpenWindowMsg : Type := mkOpenWindow {
  OpenWindow_WindowId : Z
}.

Record HeldItemChangeClientboundMsg : Type := mkHeldItemChange {
  HeldItemChange_Slot : Z
}.

(** A line written to [std::cerr]: the window id and the slot of the
    warning of [Handle(SetSlot&)]. *)
Inductive Diagnostic : Set :=
| UnknownWindow (window_id slot : Z).

(** [InventoryManager::Handle(ProtocolCraft::Message&)]: the empty body;
    [msg] is any message. *)
Definition Handle_Message {M : Type} (msg : M) (self : InventoryManager)
  : InventoryManager * list Diagnostic :=
  (self, []).

(** [InventoryManager::Handle(ProtocolCraft::SetSlot&)]. *)
Definition Handle_SetSlot (msg : SetSlotMsg) (self : InventoryManager)
  : InventoryManager * list Diagnostic :=
  if (SetSlot_WindowId msg =? -1) && (SetSlot_Slot msg =? -1) then
    (SetCursor (SetSlot_SlotData msg) self, [])
  else if SetSlot_WindowId msg =? -2 then
    (SetSlot PLAYER_INVENTORY_INDEX (SetSlot_Slot msg) (SetSlot_SlotData msg) self, [])
  else if 0 <=? SetSlot_WindowId msg then
    (SetSlot (SetSlot_WindowId msg) (SetSlot_Slot msg) (SetSlot_SlotData msg) self, [])
  else
    (self, [UnknownWindow (SetSlot_WindowId msg) (SetSlot_Slot msg)]).

(** The loop of [Handle(WindowItems&)], [for (int i = 0; i < count; ++i)],
    run for the [todo] iterations that remain from [i] on.  [operator[]]
    past the end of the vector is undefined in C++; here it gives the empty
    slot. *)
Fixpoint WindowItems_loop (msg : WindowItemsMsg) (todo : nat) (i : Z)
    (self : InventoryManager) : InventoryManager :=
  match todo with
  | O => self
  | S todo' =>
      WindowItems_loop msg todo' (i + 1)
        (SetSlot (WindowItems_WindowId msg) i
                 (nth (Z.to_nat i) (WindowItems_SlotData msg) Slot_new) self)
  end.

(** [InventoryManager::Handle(ProtocolCraft::WindowItems&)]. *)
Definition Handle_WindowItems (msg : WindowItemsMsg) (self : InventoryManager)
  : InventoryManager * list Diagnostic :=
  (WindowItems_loop msg (Z.to_nat (WindowItems_Count msg)) 0 self, []).

(** [InventoryManager::Handle(ProtocolCraft::OpenWindow&)]. *)
Definition Handle_OpenWindow (msg : OpenWindowMsg) (self : InventoryManager)
  : InventoryManager * list Diagnostic :=
  (AddInventory (OpenWindow_WindowId msg) self, []).

(** [InventoryManager::Handle(ProtocolCraft::HeldItemChangeClientbound&)]. *)
Definition Handle_HeldItemChangeClientbound
    (msg : HeldItemChangeClientboundMsg) (self : InventoryManager)
  : InventoryManager * list Diagnostic :=
  (SetHotbarSelected (HeldItemChange_Slot msg) self, []).

(** The messages that reach the manager, and the overload each selects:
    the four typed ones, and the [Message&] overload for every other
    message type ([Other] carries its packet id). *)
Inductive Message : Type :=
| MsgSetSlot (msg : SetSlotMsg)
| MsgWindowItems (msg : WindowItemsMsg)
| MsgOpenWindow (msg : OpenWindowMsg)
| MsgHeldItemChangeClientbound (msg : HeldItemChangeClientboundMsg)
| MsgOther (id : Z).

Definition Handle (msg : Message) (self : InventoryManager)
  : InventoryManager * list Diagnostic :=
  match msg with
  | MsgSetSlot m => Handle_SetSlot m self
  | MsgWindowItems m => Handle_WindowItems m self
  | MsgOpenWindow m => Handle_OpenWindow m self
  | MsgHeldItemChangeClientbound m => Handle_HeldItemChangeClientbound m self
  | MsgOther id => Handle_Message id self
  end.

(** Messages handled one after the other, in dispatch order. *)
Fixpoint Handle_all (msgs : list Message) (self : InventoryManager)
  : InventoryManager :=
  match msgs with
  | [] => self
  | msg :: msgs' => Handle_all msgs' (fst (Handle msg self))
  end.

(** What the manager stores for a slot index of a window: nothing when
    the window has no inventory or the inventory no entry there. *)
Definition slot_at (self : InventoryManager) (window_id index : Z)
  : option Slot :=
  inventory ← inventories self !! to_short window_id;
  slots inventory !! to_short index.

(** The [HeldItemChangeClientbound] messages of a list all carry a slot of
    the hotbar, 0 to 8. *)
Definition slots_in_hotbar (msgs : list Message) : Prop :=
  forall m, In (MsgHeldItemChangeClientbound m) msgs ->
            0 <= HeldItemChange_Slot m <= 8.

End Manager.

(** A header to run the manager on: a slot is a count of items, the player
    inventory is window 0 and its hotbar starts at slot 36. *)
Definition sample_header : Header :=
  {| Slot := Z; Slot_new := 0;
     PLAYER_INVENTORY_INDEX := 0; INVENTORY_HOTBAR_START := 36 |}.

Definition stack_of (count : Z) : @Slot sample_header := count.

End Inventory.

(* ===================================================================== *)
(** ** Protocol codec                                                     *)
(* ===================================================================== *)

Module ProtocolCraft.

(** [ReadIterator] with its remaining [length]: the bytes not yet read.
    [WriteContainer]: the bytes written so far.  A read gives [None] where
    the source throws. *)
Definition ReadIterator : Type := list byte.
Definition WriteContainer : Type := list byte.

(** Conversion to [int] (32 bits) and to [long long int] (64 bits), two's
    complement. *)
Definition to_int (z : Z) : Z := (z + 2 ^ 31) mod 2 ^ 32 - 2 ^ 31.
Definition to_long (z : Z) : Z := (z + 2 ^ 63) mod 2 ^ 64 - 2 ^ 63.

(** *** The primitives of [BinaryReadWrite.hpp] *)

(** Modelled from the spec: [ReadData<VarInt>] / [ReadVarInt], missing from
    the sources.  Base 128, little-endian groups of 7 bits, the high bit of
    a byte says that another byte follows, at most 5 bytes, the value is
    the 32-bit two's complement reading of the result. *)
Fixpoint ReadVarInt_loop (fuel : nat) (shift result : Z) (iter : ReadIterator)
  : option (Z * ReadIterator) :=
  match fuel with
  | O => None
  | S fuel' =>
      match iter with
      | [] => None
      | b :: iter' =>
          let read := byte.unsigned b in
          let result' := Z.lor result (Z.shiftl (Z.land read 127) shift) in
          if Z.land read 128 =? 0
          then Some (to_int result', iter')
          else ReadVarInt_loop fuel' (shift + 7) result' iter'
      end
  end.

Definition ReadVarInt (iter : ReadIterator) : option (Z * ReadIterator) :=
  ReadVarInt_loop 5 0 0 iter.

(** Modelled from the spec: [WriteData<VarInt>] / [WriteVarInt], missing
    from the sources; [value] is the 32-bit pattern still to write. *)
Fixpoint WriteVarInt_loop (fuel : nat) (value : Z) : list byte :=
  match fuel with
  | O => []
  | S fuel' =>
      let temp := Z.land value 127 in
      let value' := Z.shiftr value 7 in
      if value' =? 0
      then [byte.of_Z temp]
      else byte.of_Z (Z.lor temp 128) :: WriteVarInt_loop fuel' value'
  end.

Definition WriteVarInt (value : Z) (container : WriteContainer)
  : WriteContainer :=
  container ++ WriteVarInt_loop 5 (value mod 2 ^ 32).

(** Modelled from the spec: [ReadData<bool>] and [WriteData<bool>], missing
    from the sources; one byte, 0 is false and anything else true. *)
Definition ReadBool (iter : ReadIterator) : option (bool * ReadIterator) :=
  match iter with
  | [] => None
  | b :: iter' => Some (negb (byte.unsigned b =? 0), iter')
  end.

Definition WriteBool (value : bool) (container : WriteContainer)
  : WriteContainer :=
  container ++ [byte.of_Z (if value then 1 else 0)].

(** Modelled from the spec: fixed-width integers, missing from the sources;
    big-endian, two's complement, the natural byte count. *)
Fixpoint ReadBigEndian (nbytes : nat) (acc : Z) (iter : ReadIterator)
  : option (Z * ReadIterator) :=
  match nbytes with
  | O => Some (acc, iter)
  | S nbytes' =>
      match iter with
      | [] => None
      | b :: iter' => ReadBigEndian nbytes' (acc * 256 + byte.unsigned b) iter'
      end
  end.

Fixpoint WriteBigEndian (nbytes : nat) (value : Z) : list byte :=
  match nbytes with
  | O => []
  | S nbytes' =>
      byte.of_Z (Z.shiftr value (8 * Z.of_nat nbytes'))
        :: WriteBigEndian nbytes' value
  end.

(** Modelled from the spec: [ReadData<long long int>] and
    [WriteData<long long int>], missing from the sources; 8 bytes. *)
Definition ReadLong (iter : ReadIterator) : option (Z * ReadIterator) :=
  '(u, iter') ← ReadBigEndian 8 0 iter;
  Some (to_long u, iter').

Definition WriteLong (value : Z) (container : WriteContainer)
  : WriteContainer :=
  container ++ WriteBigEndian 8 (value mod 2 ^ 64).

(** Modelled from the spec: [ReadByteArray] and [WriteByteArray], missing
    from the sources; [desired_length] raw bytes, a failure when fewer
    remain. *)
Definition ReadByteArray (iter : ReadIterator) (desired_length : Z)
  : option (list byte * ReadIterator) :=
  if (desired_length <? 0) || (Z.of_nat (length iter) <? desired_length)
  then None
  else Some (firstn (Z.to_nat desired_length) iter,
             skipn (Z.to_nat desired_length) iter).

Definition WriteByteArray (bytes : list byte) (container : WriteContainer)
  : WriteContainer :=
  container ++ bytes.

(** [std::vector::empty()] *)
Definition empty (bytes : list byte) : bool :=
  match bytes with [] => true | _ => false end.

(** A [std::vector::size()] passed where a [VarInt] ([int]) is expected. *)
Definition size (bytes : list byte) : Z := to_int (Z.of_nat (length bytes)).

(** *** [SaltSignature] *)

Record SaltSignature : Type := mkSaltSignature {
  salt : Z;                      (* [long long int] *)
  signature : list byte
}.

(** [SaltSignature::ReadImpl]; both fields are assigned. *)
Definition SaltSignature_ReadImpl (self : SaltSignature) (iter : ReadIterator)
  : option (SaltSignature * ReadIterator) :=
  '(salt', iter) ← ReadLong iter;
  '(signature_size, iter) ← ReadVarInt iter;
  '(signature', iter) ← ReadByteArray iter signature_size;
  Some (mkSaltSignature salt' signature', iter).

(** [SaltSignature::WriteImpl]. *)
Definition SaltSignature_WriteImpl (self : SaltSignature)
    (container : WriteContainer) : WriteContainer :=
  let container := WriteLong (salt self) container in
  let container := WriteVarInt (size (signature self)) container in
  WriteByteArray (signature self) container.

(** *** [SelectTrade] *)

Record SelectTrade : Type := mkSelectTrade {
  selected_slot : Z              (* [int] *)
}.

Definition SelectTrade_ReadImpl (self : SelectTrade) (iter : ReadIterator)
  : option (SelectTrade * ReadIterator) :=
  '(selected_slot', iter) ← ReadVarInt iter;
  Some (mkSelectTrade selected_slot', iter).

Definition SelectTrade_WriteImpl (self : SelectTrade)
    (container : WriteContainer) : WriteContainer :=
  WriteVarInt (selected_slot self) container.

(** [SelectTrade::GetId]: the packet id chosen by the preprocessor; [None]
    where the source stops the build with [#error]. *)
Definition SelectTrade_GetId (PROTOCOL_VERSION : Z) : option Z :=
  if (PROTOCOL_VERSION =? 393) || (PROTOCOL_VERSION =? 401)
     || (PROTOCOL_VERSION =? 404) then Some 0x1F
  else if (PROTOCOL_VERSION =? 477) || (PROTOCOL_VERSION =? 480)
          || (PROTOCOL_VERSION =? 485) || (PROTOCOL_VERSION =? 490)
          || (PROTOCOL_VERSION =? 498) then Some 0x21
  else if (PROTOCOL_VERSION =? 573) || (PROTOCOL_VERSION =? 575)
          || (PROTOCOL_VERSION =? 578) then Some 0x21
  else if (PROTOCOL_VERSION =? 735) || (PROTOCOL_VERSION =? 736)
  then Some 0x22
  else None.

(** *** [ServerboundKeyPacket] *)

(** The fields; [salt_signature] is declared for [PROTOCOL_VERSION > 758]
    only and is neither read nor written below that. *)
Record ServerboundKeyPacket : Type := mkServerboundKeyPacket {
  key_bytes : list byte;
  nonce : list byte;
  salt_signature : SaltSignature
}.

Section Versioned.
(** The macro of the build. *)
Variable PROTOCOL_VERSION : Z.

(** [ServerboundKeyPacket::ReadImpl]: the fields that a branch does not
    assign keep the value they have in [self]. *)
Definition ServerboundKeyPacket_ReadImpl (self : ServerboundKeyPacket)
    (iter : ReadIterator) : option (ServerboundKeyPacket * ReadIterator) :=
  '(key_bytes_length, iter) ← ReadVarInt iter;
  '(key_bytes', iter) ← ReadByteArray iter key_bytes_length;
  if 758 <? PROTOCOL_VERSION then
    '(has_nonce, iter) ← ReadBool iter;
    if has_nonce : bool then
      '(nonce_length, iter) ← ReadVarInt iter;
      '(nonce', iter) ← ReadByteArray iter nonce_length;
      Some (mkServerboundKeyPacket key_bytes' nonce' (salt_signature self), iter)
    else
      '(salt_signature', iter) ← SaltSignature_ReadImpl (salt_signature self) iter;
      Some (mkServerboundKeyPacket key_bytes' (nonce self) salt_signature', iter)
  else
    '(nonce_length, iter) ← ReadVarInt iter;
    '(nonce', iter) ← ReadByteArray iter nonce_length;
    Some (mkServerboundKeyPacket key_bytes' nonce' (salt_signature self), iter).

(** [ServerboundKeyPacket::WriteImpl]. *)
Definition ServerboundKeyPacket_WriteImpl (self : ServerboundKeyPacket)
    (container : WriteContainer) : WriteContainer :=
  let container := WriteVarInt (size (key_bytes self)) container in
  let container := WriteByteArray (key_bytes self) container in
  if 758 <? PROTOCOL_VERSION then
    let container :=
      WriteBool (empty (signature (salt_signature self))) container in
    if empty (signature (salt_signature self)) then
      let container := WriteVarInt (size (nonce self)) container in
      WriteByteArray (nonce self) container
    else
      SaltSignature_WriteImpl (salt_signature self) container
  else
    let container := WriteVarInt (size (nonce self)) container in
    WriteByteArray (nonce self) container.

End Versioned.

(** The implicit default constructor of [ServerboundKeyPacket]: the three
    vectors are empty; [salt], a [long long int] without initialiser,
    holds whatever value it is given here. *)
Definition ServerboundKeyPacket_new (indeterminate : Z) : ServerboundKeyPacket :=
  mkServerboundKeyPacket [] [] (mkSaltSignature indeterminate []).

(** *** Vocabulary of the properties *)

(** Values that fit their C++ types, and vectors whose size fits the [int]
    of a [VarInt] length prefix. *)
Definition is_int (v : Z) : Prop := - 2 ^ 31 <= v < 2 ^ 31.
Definition is_long (v : Z) : Prop := - 2 ^ 63 <= v < 2 ^ 63.
Definition is_length (bytes : list byte) : Prop :=
  Z.of_nat (length bytes) < 2 ^ 31.

Definition SaltSignature_value (v : SaltSignature) : Prop :=
  is_long (salt v) /\ is_length (signature v).

Definition SelectTrade_value (v : SelectTrade) : Prop :=
  is_int (selected_slot v).

Definition ServerboundKeyPacket_value (v : ServerboundKeyPacket) : Prop :=
  is_length (key_bytes v) /\ is_length (nonce v) /\
  SaltSignature_value (salt_signature v).

(** A packet as its constructor leaves it. *)
Definition fresh (self : ServerboundKeyPacket) : Prop :=
  key_bytes self = [] /\ nonce self = [] /\
  signature (salt_signature self) = [].

(** Of the nonce and the salt signature of [v], exactly one is populated:
    the other one is as in [self], the fresh packet that is read into. *)
Definition exactly_one_populated (self v : ServerboundKeyPacket) : Prop :=
  (nonce v <> nonce self /\ salt_signature v = salt_signature self)
  \/ (nonce v = nonce self /\
      signature (salt_signature v) <> signature (salt_signature self)).

(** The bytes of the primitives, and of a byte array behind its [VarInt]
    count. *)
Definition VarInt_bytes (v : Z) : list byte := WriteVarInt v [].
Definition Long_bytes (v : Z) : list byte := WriteLong v [].
Definition Bool_bytes (v : bool) : list byte := WriteBool v [].
Definition ByteArray_bytes (bytes : list byte) : list byte :=
  VarInt_bytes (Z.of_nat (length bytes)) ++ bytes.

(** The well-formed byte strings, after the wire layouts of the
    specification.  [SaltSignature]: the salt on 8 bytes, the [VarInt]
    length of the signature, the signature. *)
Inductive SaltSignature_layout : list byte -> Prop :=
| layout_salt_signature (salt_ : Z) (signature_ : list byte) :
    is_long salt_ -> is_length signature_ ->
    SaltSignature_layout (Long_bytes salt_ ++ ByteArray_bytes signature_).

(** [SelectTrade]: one [VarInt]. *)
Inductive SelectTrade_layout : list byte -> Prop :=
| layout_select_trade (slot : Z) :
    is_int slot -> SelectTrade_layout (VarInt_bytes slot).

(** [ServerboundKeyPacket]: legacy (protocol <= 758), the key and the
    nonce; modern, the key, the flag, and the nonce when the flag is true,
    a [SaltSignature] otherwise.  The boolean index is true for the
    strings whose flag is false while the signature that follows has no
    byte. *)
Inductive ServerboundKeyPacket_layout (PROTOCOL_VERSION : Z)
  : list byte -> bool -> Prop :=
| layout_legacy (key nonce_ : list byte) :
    PROTOCOL_VERSION <= 758 -> is_length key -> is_length nonce_ ->
    ServerboundKeyPacket_layout PROTOCOL_VERSION
      (ByteArray_bytes key ++ ByteArray_bytes nonce_) false
| layout_nonce (key nonce_ : list byte) :
    758 < PROTOCOL_VERSION -> is_length key -> is_length nonce_ ->
    ServerboundKeyPacket_layout PROTOCOL_VERSION
      (ByteArray_bytes key ++ Bool_bytes true ++ ByteArray_bytes nonce_) false
| layout_signed (key : list byte) (salt_ : Z) (signature_ : list byte) :
    758 < PROTOCOL_VERSION -> is_length key ->
    is_long salt_ -> is_length signature_ ->
    ServerboundKeyPacket_layout PROTOCOL_VERSION
      (ByteArray_bytes key ++ Bool_bytes false
         ++ Long_bytes salt_ ++ ByteArray_bytes signature_)
      (empty signature_).

(** A modern key packet without key: flag false, salt 0, no signature. *)
Definition unsigned_key_exchange : list byte :=
  [Byte.x00; Byte.x00;
   Byte.x00; Byte.x00; Byte.x00; Byte.x00;
   Byte.x00; Byte.x00; Byte.x00; Byte.x00;
   Byte.x00].

End ProtocolCraft.

(* ===================================================================== *)
(** ** Properties of the behaviour tree                                   *)
(* ===================================================================== *)

Section BehaviourTreeProperties.
Import AI.

Section OverAWorld.
Context {World : Type}.
Implicit Types (self : Composite World) (cs rest : list (Node World)).

(** *** Sequence *)

(** What the loop does from a list of remaining children: [j] of them
    succeed in a row, then the list ends, or child [j] fails, or child [j]
    is running. *)
Lemma Sequence_loop_run rest pos context :
  exists (j : nat) (w : World),
    (j <= length rest)%nat /\
    all_succeed (firstn j rest) context w /\
    ((j = length rest /\
      Sequence_loop rest pos context = (Success, (begin, w)))
     \/ (exists child w', nth_error rest j = Some child /\
           child w = (Failure, w') /\
           Sequence_loop rest pos context = (Failure, (begin, w')))
     \/ (exists child w', nth_error rest j = Some child /\
           child w = (Running, w') /\
           Sequence_loop rest pos context = (Running, ((pos + j)%nat, w')))).
Proof.
  revert pos context.
  induction rest as [|child rest IH]; intros pos context.
  - exists 0%nat, context. split; [simpl; lia|]. split; [constructor|].
    left. split; reflexivity.
  - simpl. destruct (child context) as [child_status context'] eqn:E.
    destruct child_status.
    + exists 0%nat, context. split; [simpl; lia|]. split; [constructor|].
      right. left. exists child, context'. repeat split; assumption.
    + exists 0%nat, context. split; [simpl; lia|]. split; [constructor|].
      right. right. exists child, context'.
      rewrite Nat.add_0_r. repeat split; assumption.
    + destruct (IH (S pos) context') as (j & w & Hj & Hrun & Hend).
      exists (S j), w. split; [simpl; lia|].
      split; [econstructor; eassumption|].
      replace (pos + S j)%nat with (S pos + j)%nat by lia.
      simpl nth_error. simpl length.
      destruct Hend as [[-> ->]|[(c & w' & ? & ? & ->)|(c & w' & ? & ? & ->)]].
      * left. split; reflexivity.
      * right. left. exists c, w'. repeat split; assumption.
      * right. right. exists c, w'. repeat split; assumption.
Qed.

Lemma skipn_nth_error_cons cs k child :
  nth_error cs k = Some child -> skipn k cs = child :: skipn (S k) cs.
Proof.
  revert cs.
  induction k as [|k IH]; intros [|x l] Hk; simpl in *; try discriminate.
  - injection Hk as ->. reflexivity.
  - rewrite (IH l Hk). reflexivity.
Qed.

(** A tick whose cursor is on [child] starts with a tick of [child]. *)
Lemma Sequence_Tick_enter cs k child context :
  nth_error cs k = Some child ->
  Sequence_Tick (mkComposite cs k, context)
  = match child context with
    | (Failure, w) => (Failure, (mkComposite cs begin, w))
    | (Running, w) => (Running, (mkComposite cs k, w))
    | (Success, w) => Sequence_Tick (mkComposite cs (S k), w)
    end.
Proof.
  intros Hk. unfold Sequence_Tick. simpl.
  rewrite (skipn_nth_error_cons _ _ _ Hk). simpl.
  destruct (child context) as [[] w]; reflexivity.
Qed.

(** [AddChild] leaves the cursor on the first child, and a tick leaves it
    inside the vector. *)
Lemma AddChild_cursor self child :
  it (AddChild self child) = begin /\
  (it (AddChild self child) <= length (children (AddChild self child)))%nat.
Proof. split; [reflexivity|]. simpl. unfold begin. lia. Qed.

(** A tick leaves the cursor inside the vector when it finds it there. *)
Lemma Sequence_Tick_cursor self context :
  (it self <= length (children self))%nat ->
  children (fst (snd (Sequence_Tick (self, context)))) = children self /\
  (it (fst (snd (Sequence_Tick (self, context))))
   <= length (children self))%nat.
Proof.
  intros Hit. unfold Sequence_Tick.
  destruct (Sequence_loop_run (skipn (it self) (children self))
              (it self) context) as (j & w & Hj & _ & Hend).
  rewrite length_skipn in Hj.
  destruct Hend as [[_ ->]|[(c & w' & Hc & _ & ->)|(c & w' & Hc & _ & ->)]];
    simpl; unfold begin; split; try reflexivity; try lia.
Qed.

(** C4. A tick of a Sequence starts at the cursor and ticks the children
    from there in order, each one once: the children at the offsets from
    [it] to [k - 1] succeed one after the other, and then
    - either [k] is past the last child: the cursor goes back to the
      beginning and the tick returns Success;
    - or child [k] returns Failure: the cursor goes back to the beginning
      and the tick returns Failure;
    - or child [k] returns Running: the tick returns Running and leaves the
      cursor on child [k], so that the next tick starts with a tick of that
      same child. *)
Theorem Sequence_Tick_resume self context :
  (it self <= length (children self))%nat ->
  exists (k : nat) (w : World),
    (it self <= k <= length (children self))%nat /\
    all_succeed (firstn (k - it self) (skipn (it self) (children self)))
      context w /\
    ((k = length (children self) /\
      Sequence_Tick (self, context)
      = (Success, (mkComposite (children self) begin, w)))
     \/ (exists child w', nth_error (children self) k = Some child /\
           child w = (Failure, w') /\
           Sequence_Tick (self, context)
           = (Failure, (mkComposite (children self) begin, w')))
     \/ (exists child w', nth_error (children self) k = Some child /\
           child w = (Running, w') /\
           Sequence_Tick (self, context)
           = (Running, (mkComposite (children self) k, w')) /\
           forall context2,
             Sequence_Tick (mkComposite (children self) k, context2)
             = match child context2 with
               | (Failure, w2) =>
                   (Failure, (mkComposite (children self) begin, w2))
               | (Running, w2) =>
                   (Running, (mkComposite (children self) k, w2))
               | (Success, w2) =>
                   Sequence_Tick (mkComposite (children self) (S k), w2)
               end)).
Proof.
  intros Hit.
  destruct (Sequence_loop_run (skipn (it self) (children self))
              (it self) context) as (j & w & Hj & Hrun & Hend).
  rewrite length_skipn in Hj.
  exists (it self + j)%nat, w.
  split; [lia|].
  replace (it self + j - it self)%nat with j by lia.
  split; [exact Hrun|].
  rewrite length_skipn in Hend.
  unfold Sequence_Tick at 1 2 3.
  destruct Hend as [[-> ->]|[(c & w' & Hc & ? & ->)|(c & w' & Hc & ? & ->)]].
  - left. split; [lia|reflexivity].
  - right. left. exists c, w'. rewrite nth_error_skipn in Hc.
    repeat split; assumption.
  - right. right. exists c, w'. rewrite nth_error_skipn in Hc.
    repeat split; try assumption.
    intros context2. apply Sequence_Tick_enter. exact Hc.
Qed.

(** *** Selector and Sequence *)

Lemma Sequence_loop_inverted rest pos context :
  Sequence_loop (map Inverter_Tick rest) pos context
  = let '(status, state) := Selector_loop rest pos context in
    (invert status, state).
Proof.
  revert pos context. induction rest as [|child rest IH]; intros pos context.
  - reflexivity.
  - simpl. unfold Inverter_Tick at 1.
    destruct (child context) as [[] context']; simpl; auto.
Qed.

(** One tick of the inverted sequence of inverted children, told by the
    loop of the selector. *)
Lemma Inverter_Sequence_Tick cs i context :
  Inverter_Tick Sequence_Tick (mkComposite (map Inverter_Tick cs) i, context)
  = let '(status, (i', context')) := Selector_loop (skipn i cs) i context in
    (status, (mkComposite (map Inverter_Tick cs) i', context')).
Proof.
  unfold Inverter_Tick at 1, Sequence_Tick. simpl.
  rewrite skipn_map, Sequence_loop_inverted.
  destruct (Selector_loop (skipn i cs) i context) as [[] [i' context']];
    reflexivity.
Qed.

Lemma tick_trace_dual cs i context (callers : list (World -> World)) :
  tick_trace Selector_Tick (mkComposite cs i) context callers
  = tick_trace (Inverter_Tick Sequence_Tick)
      (mkComposite (map Inverter_Tick cs) i) context callers.
Proof.
  revert i context.
  induction callers as [|caller callers IH]; intros i context.
  - reflexivity.
  - cbn [tick_trace]. rewrite Inverter_Sequence_Tick.
    unfold Selector_Tick at 1. cbn [children it].
    destruct (Selector_loop (skipn i cs) i (caller context))
      as [status [i' context']].
    f_equal. apply IH.
Qed.

Lemma AddChild_all cs self :
  cs <> [] ->
  fold_left AddChild cs self = mkComposite (children self ++ cs) begin.
Proof.
  revert self. induction cs as [|c cs IH]; intros self Hcs; [congruence|].
  simpl. destruct cs as [|c' cs].
  - reflexivity.
  - rewrite IH by discriminate. simpl. rewrite <- app_assoc. reflexivity.
Qed.

Lemma AddChild_new cs :
  fold_left AddChild cs Composite_new = mkComposite cs begin.
Proof.
  destruct cs as [|c cs]; [reflexivity|].
  rewrite AddChild_all by discriminate. reflexivity.
Qed.

(** C5. For every list of children, every starting world and every
    sequence of ticks, whatever the caller does to the world between two
    ticks, a Selector over the children returns the same statuses as an
    Inverter around a Sequence over the Inverters of the children. *)
Theorem Selector_duality cs context (callers : list (World -> World)) :
  tick_trace Selector_Tick (fold_left AddChild cs Composite_new)
    context callers
  = tick_trace (Inverter_Tick Sequence_Tick)
      (fold_left AddChild (map Inverter_Tick cs) Composite_new)
      context callers.
Proof.
  rewrite !AddChild_new. apply tick_trace_dual.
Qed.

(** *** More on the two composites *)

(** The loop of the selector, as [Sequence_loop_run] for the sequence. *)
Lemma Selector_loop_run rest pos context :
  exists (j : nat) (w : World),
    (j <= length rest)%nat /\
    all_fail (firstn j rest) context w /\
    ((j = length rest /\
      Selector_loop rest pos context = (Failure, (begin, w)))
     \/ (exists child w', nth_error rest j = Some child /\
           child w = (Success, w') /\
           Selector_loop rest pos context = (Success, (begin, w')))
     \/ (exists child w', nth_error rest j = Some child /\
           child w = (Running, w') /\
           Selector_loop rest pos context = (Running, ((pos + j)%nat, w')))).
Proof.
  revert pos context.
  induction rest as [|child rest IH]; intros pos context.
  - exists 0%nat, context. split; [simpl; lia|]. split; [constructor|].
    left. split; reflexivity.
  - simpl. destruct (child context) as [child_status context'] eqn:E.
    destruct child_status.
    + destruct (IH (S pos) context') as (j & w & Hj & Hrun & Hend).
      exists (S j), w. split; [simpl; lia|].
      split; [econstructor; eassumption|].
      replace (pos + S j)%nat with (S pos + j)%nat by lia.
      simpl nth_error. simpl length.
      destruct Hend as [[-> ->]|[(c & w' & ? & ? & ->)|(c & w' & ? & ? & ->)]].
      * left. split; reflexivity.
      * right. left. exists c, w'. repeat split; assumption.
      * right. right. exists c, w'. repeat split; assumption.
    + exists 0%nat, context. split; [simpl; lia|]. split; [constructor|].
      right. right. exists child, context'.
      rewrite Nat.add_0_r. repeat split; assumption.
    + exists 0%nat, context. split; [simpl; lia|]. split; [constructor|].
      right. left. exists child, context'. repeat split; assumption.
Qed.

Lemma Selector_Tick_enter cs k child context :
  nth_error cs k = Some child ->
  Selector_Tick (mkComposite cs k, context)
  = match child context with
    | (Failure, w) => Selector_Tick (mkComposite cs (S k), w)
    | (Running, w) => (Running, (mkComposite cs k, w))
    | (Success, w) => (Success, (mkComposite cs begin, w))
    end.
Proof.
  intros Hk. unfold Selector_Tick. simpl.
  rewrite (skipn_nth_error_cons _ _ _ Hk). simpl.
  destruct (child context) as [[] w]; reflexivity.
Qed.

(** X1. A tick of a Selector starts at the cursor and ticks the children
    from there in order, each one once: the children at the offsets from
    [it] to [k - 1] fail one after the other, and then either [k] is past
    the last child (Failure, cursor back at the beginning), or child [k]
    returns Success (Success, cursor back at the beginning), or child [k]
    returns Running (Running, cursor left on child [k], which the next tick
    ticks first). *)
Theorem Selector_Tick_resume self context :
  (it self <= length (children self))%nat ->
  exists (k : nat) (w : World),
    (it self <= k <= length (children self))%nat /\
    all_fail (firstn (k - it self) (skipn (it self) (children self)))
      context w /\
    ((k = length (children self) /\
      Selector_Tick (self, context)
      = (Failure, (mkComposite (children self) begin, w)))
     \/ (exists child w', nth_error (children self) k = Some child /\
           child w = (Success, w') /\
           Selector_Tick (self, context)
           = (Success, (mkComposite (children self) begin, w')))
     \/ (exists child w', nth_error (children self) k = Some child /\
           child w = (Running, w') /\
           Selector_Tick (self, context)
           = (Running, (mkComposite (children self) k, w')) /\
           forall context2,
             Selector_Tick (mkComposite (children self) k, context2)
             = match child context2 with
               | (Failure, w2) =>
                   Selector_Tick (mkComposite (children self) (S k), w2)
               | (Running, w2) =>
                   (Running, (mkComposite (children self) k, w2))
               | (Success, w2) =>
                   (Success, (mkComposite (children self) begin, w2))
               end)).
Proof.
  intros Hit.
  destruct (Selector_loop_run (skipn (it self) (children self))
              (it self) context) as (j & w & Hj & Hrun & Hend).
  rewrite length_skipn in Hj.
  exists (it self + j)%nat, w.
  split; [lia|].
  replace (it self + j - it self)%nat with j by lia.
  split; [exact Hrun|].
  rewrite length_skipn in Hend.
  unfold Selector_Tick at 1 2 3.
  destruct Hend as [[-> ->]|[(c & w' & Hc & ? & ->)|(c & w' & Hc & ? & ->)]].
  - left. split; [lia|reflexivity].
  - right. left. exists c, w'. rewrite nth_error_skipn in Hc.
    repeat split; assumption.
  - right. right. exists c, w'. rewrite nth_error_skipn in Hc.
    repeat split; try assumption.
    intros context2. apply Selector_Tick_enter. exact Hc.
Qed.

Lemma Sequence_loop_Success rest pos context w :
  Sequence_loop rest pos context = (Success, (begin, w))
  <-> all_succeed rest context w.
Proof.
  revert pos context. induction rest as [|child rest IH]; intros pos context.
  - simpl. split.
    + intros [= ->]. constructor.
    + intros Hall. inversion Hall. reflexivity.
  - simpl. destruct (child context) as [[] context'] eqn:E.
    + split; [discriminate|]. intros Hall. inversion Hall; subst. congruence.
    + split; [discriminate|]. intros Hall. inversion Hall; subst. congruence.
    + rewrite IH. split.
      * intros Hall. econstructor; eassumption.
      * intros Hall. inversion Hall; subst.
        assert (w' = context') by congruence. subst. assumption.
Qed.

Lemma Selector_loop_Failure rest pos context w :
  Selector_loop rest pos context = (Failure, (begin, w))
  <-> all_fail rest context w.
Proof.
  revert pos context. induction rest as [|child rest IH]; intros pos context.
  - simpl. split.
    + intros [= ->]. constructor.
    + intros Hall. inversion Hall. reflexivity.
  - simpl. destruct (child context) as [[] context'] eqn:E.
    + rewrite IH. split.
      * intros Hall. econstructor; eassumption.
      * intros Hall. inversion Hall; subst.
        assert (w' = context') by congruence. subst. assumption.
    + split; [discriminate|]. intros Hall. inversion Hall; subst. congruence.
    + split; [discriminate|]. intros Hall. inversion Hall; subst. congruence.
Qed.

(** X2. A tick of a Sequence returns Success, leaving the world [w], exactly
    when the children from the cursor on, ticked in order, all succeed and
    lead to [w]; and a tick of a Selector returns Failure, leaving the world
    [w], exactly when they all fail and lead to [w].  In both cases the
    cursor is back at the beginning. *)
Theorem composite_folds self context w :
  (Sequence_Tick (self, context)
   = (Success, (mkComposite (children self) begin, w))
   <-> all_succeed (skipn (it self) (children self)) context w)
  /\ (Selector_Tick (self, context)
      = (Failure, (mkComposite (children self) begin, w))
      <-> all_fail (skipn (it self) (children self)) context w).
Proof.
  split.
  - rewrite <- (Sequence_loop_Success _ (it self)). unfold Sequence_Tick.
    destruct (Sequence_loop (skipn (it self) (children self)) (it self) context)
      as [status [i w']].
    split; intros [= -> -> ->]; reflexivity.
  - rewrite <- (Selector_loop_Failure _ (it self)). unfold Selector_Tick.
    destruct (Selector_loop (skipn (it self) (children self)) (it self) context)
      as [status [i w']].
    split; intros [= -> -> ->]; reflexivity.
Qed.

(** X3. A tick of a Sequence or of a Selector never changes the children
    vector; from a cursor inside the vector it leaves the cursor inside
    the vector: at the beginning unless the tick returns Running, and on a
    child, not before the one it started from, when it returns Running. *)
Theorem composite_cursor self context :
  (it self <= length (children self))%nat ->
  keeps_cursor self (Sequence_Tick (self, context))
  /\ keeps_cursor self (Selector_Tick (self, context)).
Proof.
  intros Hit. unfold keeps_cursor. split.
  - unfold Sequence_Tick.
    destruct (Sequence_loop_run (skipn (it self) (children self))
                (it self) context) as (j & w & Hj & _ & Hend).
    destruct Hend as [[_ ->]|[(c & w' & Hc & _ & ->)|(c & w' & Hc & _ & ->)]];
      simpl; (split; [reflexivity|]); (split; [try congruence|try discriminate]).
    intros _. assert (Hlt : (j < length (skipn (it self) (children self)))%nat)
      by (apply nth_error_Some; congruence).
    rewrite length_skipn in Hlt. lia.
  - unfold Selector_Tick.
    destruct (Selector_loop_run (skipn (it self) (children self))
                (it self) context) as (j & w & Hj & _ & Hend).
    destruct Hend as [[_ ->]|[(c & w' & Hc & _ & ->)|(c & w' & Hc & _ & ->)]];
      simpl; (split; [reflexivity|]); (split; [try congruence|try discriminate]).
    intros _. assert (Hlt : (j < length (skipn (it self) (children self)))%nat)
      by (apply nth_error_Some; congruence).
    rewrite length_skipn in Hlt. lia.
Qed.

Lemma Selector_loop_inverted rest pos context :
  Selector_loop (map Inverter_Tick rest) pos context
  = let '(status, state) := Sequence_loop rest pos context in
    (invert status, state).
Proof.
  revert pos context. induction rest as [|child rest IH]; intros pos context.
  - reflexivity.
  - simpl. unfold Inverter_Tick at 1.
    destruct (child context) as [[] context']; simpl; auto.
Qed.

Lemma Inverter_Selector_Tick cs i context :
  Inverter_Tick Selector_Tick (mkComposite (map Inverter_Tick cs) i, context)
  = let '(status, (i', context')) := Sequence_loop (skipn i cs) i context in
    (status, (mkComposite (map Inverter_Tick cs) i', context')).
Proof.
  unfold Inverter_Tick at 1, Selector_Tick. simpl.
  rewrite skipn_map, Selector_loop_inverted.
  destruct (Sequence_loop (skipn i cs) i context) as [[] [i' context']];
    reflexivity.
Qed.

(** X4. The other half of the duality: a Sequence over children returns, tick
    after tick and whatever the caller does to the world in between, the
    statuses of an Inverter around a Selector over the Inverters of the
    children. *)
Theorem Sequence_duality cs context (callers : list (World -> World)) :
  tick_trace Sequence_Tick (fold_left AddChild cs Composite_new)
    context callers
  = tick_trace (Inverter_Tick Selector_Tick)
      (fold_left AddChild (map Inverter_Tick cs) Composite_new)
      context callers.
Proof.
  rewrite !AddChild_new. generalize (@begin). intros i.
  revert i context.
  induction callers as [|caller callers IH]; intros i context.
  - reflexivity.
  - cbn [tick_trace]. rewrite Inverter_Selector_Tick.
    unfold Sequence_Tick at 1. cbn [children it].
    destruct (Sequence_loop (skipn i cs) i (caller context))
      as [status [i' context']].
    f_equal. apply IH.
Qed.

(** X5. Children added one by one to a composite, in any state, end up
    behind the children it had, in the order they were added, and the
    cursor is on the first child: a tick that was waiting on a running
    child starts over. *)
Theorem AddChild_appends cs self :
  cs <> [] ->
  children (fold_left AddChild cs self) = children self ++ cs /\
  it (fold_left AddChild cs self) = begin.
Proof.
  intros Hcs. rewrite AddChild_all by exact Hcs. split; reflexivity.
Qed.

(** X6. Two Inverters undo each other: the node they wrap is ticked once
    and its status comes out unchanged. *)
Theorem Inverter_involutive (child : Node World) context :
  Inverter_Tick (Inverter_Tick child) context = child context.
Proof.
  unfold Inverter_Tick. destruct (child context) as [[] w]; reflexivity.
Qed.

(** X7. A Succeeder never returns Failure and an Inverter around a
    Succeeder never returns Success; both return Running exactly when the
    child does, and leave the world as the child's tick left it. *)
Theorem Succeeder_never_fails (child : Node World) context :
  fst (Succeeder_Tick child context) <> Failure /\
  fst (Inverter_Tick (Succeeder_Tick child) context) <> Success /\
  (fst (Succeeder_Tick child context) = Running
   <-> fst (child context) = Running) /\
  (fst (Inverter_Tick (Succeeder_Tick child) context) = Running
   <-> fst (child context) = Running) /\
  snd (Succeeder_Tick child context) = snd (child context) /\
  snd (Inverter_Tick (Succeeder_Tick child) context) = snd (child context).
Proof.
  unfold Inverter_Tick, Succeeder_Tick.
  destruct (child context) as [[] w]; simpl;
    repeat split; congruence.
Qed.

(** *** Repeater *)

Variable child : Node World.

Lemma Repeater_Tick_Failure (self : Repeater) context :
  fst (child context) = Failure ->
  Repeater_Tick child (self, context)
  = let counter' := size_t_wrap (counter self + 1) in
    if counter' =? n self
    then (Failure, (mkRepeater (n self) 0, snd (child context)))
    else (Running, (mkRepeater (n self) counter', snd (child context))).
Proof.
  unfold Repeater_Tick. destruct (child context) as [s w]. simpl.
  intros ->. reflexivity.
Qed.

Lemma Repeater_Tick_Success (self : Repeater) context :
  fst (child context) = Success ->
  Repeater_Tick child (self, context)
  = (Success, (mkRepeater (n self) 0, snd (child context))).
Proof.
  unfold Repeater_Tick. destruct (child context) as [s w]. simpl.
  intros ->. reflexivity.
Qed.

(** As long as the counter has neither reached [n] nor come back to 0,
    every failure is counted and answered by [Running]. *)
Lemma Repeater_counts n_ context (k : nat) :
  always_returns child Failure ->
  Z.of_nat k < 2 ^ SIZE_WIDTH ->
  (n_ <= 0 \/ Z.of_nat k < n_) ->
  fst (after_ticks (Repeater_Tick child) k (Repeater_new n_, context))
  = mkRepeater n_ (Z.of_nat k) /\
  forall j, (j < k)%nat ->
    status_of_tick (Repeater_Tick child) j (Repeater_new n_, context) = Running.
Proof.
  intros Hfail. change (2 ^ SIZE_WIDTH) with 18446744073709551616.
  induction k as [|k IH]; intros Hk Hn.
  - split; [reflexivity|]. intros j Hj. lia.
  - destruct IH as [IHstate IHrun]; [lia|lia|].
    assert (Hstep : Repeater_Tick child
              (after_ticks (Repeater_Tick child) k (Repeater_new n_, context))
            = (Running, (mkRepeater n_ (Z.of_nat (S k)),
                 snd (child (snd (after_ticks (Repeater_Tick child) k
                                    (Repeater_new n_, context))))))).
    { destruct (after_ticks (Repeater_Tick child) k (Repeater_new n_, context))
        as [self w] eqn:E.
      simpl in IHstate. subst self.
      rewrite Repeater_Tick_Failure by apply Hfail. simpl.
      unfold size_t_wrap. change (2 ^ SIZE_WIDTH) with 18446744073709551616.
      rewrite Z.mod_small by lia.
      replace (Z.of_nat k + 1) with (Z.of_nat (S k)) by lia.
      destruct (Z.eqb_spec (Z.of_nat (S k)) n_); [lia|reflexivity]. }
    split.
    + simpl after_ticks. rewrite Hstep. reflexivity.
    + intros j Hj. destruct (Nat.eq_dec j k) as [->|Hne].
      * unfold status_of_tick. rewrite Hstep. reflexivity.
      * apply IHrun. lia.
Qed.

(** [n] > 0: [Running] on the first [n - 1] failures, [Failure] on failure
    number [n], and the repeater is as new. *)
Lemma Repeater_gives_up n_ context (k : nat) :
  always_returns child Failure ->
  0 < n_ < 2 ^ SIZE_WIDTH ->
  Z.of_nat k = n_ - 1 ->
  (forall j, (j < k)%nat ->
     status_of_tick (Repeater_Tick child) j (Repeater_new n_, context) = Running)
  /\ status_of_tick (Repeater_Tick child) k (Repeater_new n_, context) = Failure
  /\ fst (after_ticks (Repeater_Tick child) (S k) (Repeater_new n_, context))
     = Repeater_new n_.
Proof.
  intros Hfail Hn Hk.
  destruct (Repeater_counts n_ context k Hfail) as [Hstate Hrun]; [lia|lia|].
  split; [exact Hrun|].
  unfold status_of_tick. simpl after_ticks.
  destruct (after_ticks (Repeater_Tick child) k (Repeater_new n_, context))
    as [self w].
  simpl in Hstate. subst self.
  rewrite Repeater_Tick_Failure by apply Hfail. simpl.
  unfold size_t_wrap. rewrite Z.mod_small by lia.
  destruct (Z.eqb_spec (Z.of_nat k + 1) n_); [|lia].
  split; reflexivity.
Qed.

(** [n] = 0: the counter is back at 0, that is at [n], on failure number
    [2^64]. *)
Lemma Repeater_zero_wraps context (k : nat) :
  always_returns child Failure ->
  Z.of_nat k = 2 ^ SIZE_WIDTH - 1 ->
  (forall j, (j < k)%nat ->
     status_of_tick (Repeater_Tick child) j (Repeater_new 0, context) = Running)
  /\ status_of_tick (Repeater_Tick child) k (Repeater_new 0, context) = Failure.
Proof.
  intros Hfail Hk.
  destruct (Repeater_counts 0 context k Hfail) as [Hstate Hrun]; [lia|lia|].
  split; [exact Hrun|].
  unfold status_of_tick.
  destruct (after_ticks (Repeater_Tick child) k (Repeater_new 0, context))
    as [self w].
  simpl in Hstate. subst self.
  rewrite Repeater_Tick_Failure by apply Hfail. simpl.
  rewrite Hk. unfold size_t_wrap.
  replace (2 ^ SIZE_WIDTH - 1 + 1) with (2 ^ SIZE_WIDTH) by lia.
  rewrite Z.mod_same by (unfold SIZE_WIDTH; lia).
  reflexivity.
Qed.

(** X29. What the code does of the Repeater semantics.  A new Repeater(n)
    with 0 < n (n a [size_t]) whose child returns Failure on every tick returns
    Running on each of the first n - 1 ticks and Failure on tick n, after
    which its counter is 0 again; a new Repeater(0) with such a child
    returns Running on each of the first 2^64 - 1 ticks; and on any tick
    where the child returns Success the Repeater returns Success and sets
    its counter to 0. *)
Theorem Repeater_semantics :
  (forall n_ context (k : nat),
     always_returns child Failure ->
     0 < n_ < 2 ^ SIZE_WIDTH ->
     Z.of_nat k = n_ - 1 ->
     (forall j, (j < k)%nat ->
        status_of_tick (Repeater_Tick child) j (Repeater_new n_, context)
        = Running)
     /\ status_of_tick (Repeater_Tick child) k (Repeater_new n_, context)
        = Failure
     /\ counter (fst (after_ticks (Repeater_Tick child) (S k)
                        (Repeater_new n_, context))) = 0)
  /\ (forall context (k : nat),
        always_returns child Failure ->
        Z.of_nat k < 2 ^ SIZE_WIDTH - 1 ->
        status_of_tick (Repeater_Tick child) k (Repeater_new 0, context)
        = Running)
  /\ (forall (self : Repeater) context,
        fst (child context) = Success ->
        fst (Repeater_Tick child (self, context)) = Success /\
        counter (fst (snd (Repeater_Tick child (self, context)))) = 0).
Proof.
  split; [|split].
  - intros n_ context k Hfail Hn Hk.
    destruct (Repeater_gives_up n_ context k Hfail Hn Hk) as (H1 & H2 & H3).
    repeat split; try assumption. rewrite H3. reflexivity.
  - intros context k Hfail Hk.
    destruct (Repeater_counts 0 context (S k) Hfail) as [_ Hrun].
    + change (2 ^ SIZE_WIDTH) with 18446744073709551616 in *. lia.
    + left. lia.
    + apply Hrun. lia.
  - intros self context Hs. rewrite Repeater_Tick_Success by exact Hs.
    split; reflexivity.
Qed.

(** *** More on the Repeater *)

(** X26. The counter of a Repeater(n), n > 0, stays below n: from a counter
    between 0 and n - 1 a tick leaves n as it is and the counter between 0
    and n - 1, whatever the child returns. *)
Theorem Repeater_counter_bound (self : Repeater) context :
  0 <= counter self < n self -> n self < 2 ^ SIZE_WIDTH ->
  n (fst (snd (Repeater_Tick child (self, context)))) = n self /\
  0 <= counter (fst (snd (Repeater_Tick child (self, context)))) < n self.
Proof.
  intros Hc Hn. change (2 ^ SIZE_WIDTH) with 18446744073709551616 in Hn.
  unfold Repeater_Tick. destruct (child context) as [[] w]; cbn.
  - unfold size_t_wrap. change (2 ^ SIZE_WIDTH) with 18446744073709551616.
    rewrite Z.mod_small by lia.
    destruct (Z.eqb_spec (counter self + 1) (n self)); cbn; lia.
  - lia.
  - lia.
Qed.

(** X27. A Repeater returns Success exactly when its child does, returns
    Failure only when its child fails, and when its child is running it
    returns Running and keeps its counter; the world is left as the child's
    tick left it. *)
Theorem Repeater_status (self : Repeater) context :
  (fst (Repeater_Tick child (self, context)) = Success
   <-> fst (child context) = Success)
  /\ (fst (Repeater_Tick child (self, context)) = Failure
      -> fst (child context) = Failure)
  /\ (fst (child context) = Running ->
      fst (Repeater_Tick child (self, context)) = Running /\
      fst (snd (Repeater_Tick child (self, context))) = self)
  /\ snd (snd (Repeater_Tick child (self, context))) = snd (child context).
Proof.
  unfold Repeater_Tick. destruct (child context) as [[] w]; cbn.
  - destruct (size_t_wrap (counter self + 1) =? n self); cbn;
      repeat split; congruence.
  - repeat split; congruence.
  - repeat split; congruence.
Qed.

(** X28. A Repeater(1) is its child: from a counter at 0, a tick returns the
    status of the child, whichever it is, and leaves the counter at 0. *)
Theorem Repeater_one_transparent context :
  Repeater_Tick child (Repeater_new 1, context)
  = (fst (child context), (Repeater_new 1, snd (child context))).
Proof.
  unfold Repeater_Tick. destruct (child context) as [[] w]; reflexivity.
Qed.

End OverAWorld.

(** The sequence of the specification's scenario: the second leaf is
    running at the first tick and succeeds at the second one; it is ticked
    once by each tick. *)
Example resume_cursor_scenario :
  Sequence_Tick (three_leaves, mkProbe false [])
  = (Running, (mkComposite (children three_leaves) 1,
               mkProbe true [1; 2]%nat))
  /\ Sequence_Tick (mkComposite (children three_leaves) 1,
                    mkProbe true [1; 2]%nat)
     = (Success, (mkComposite (children three_leaves) begin,
                  mkProbe true [1; 2; 2; 3]%nat)).
Proof. split; reflexivity. Qed.

Lemma Sequence_Tick_resume_witness :
  exists (k : nat) (w : Probe),
    (it three_leaves <= k <= length (children three_leaves))%nat /\
    all_succeed
      (firstn (k - it three_leaves)
         (skipn (it three_leaves) (children three_leaves)))
      (mkProbe false []) w /\
    ((k = length (children three_leaves) /\
      Sequence_Tick (three_leaves, mkProbe false [])
      = (Success, (mkComposite (children three_leaves) begin, w)))
     \/ (exists child w', nth_error (children three_leaves) k = Some child /\
           child w = (Failure, w') /\
           Sequence_Tick (three_leaves, mkProbe false [])
           = (Failure, (mkComposite (children three_leaves) begin, w')))
     \/ (exists child w', nth_error (children three_leaves) k = Some child /\
           child w = (Running, w') /\
           Sequence_Tick (three_leaves, mkProbe false [])
           = (Running, (mkComposite (children three_leaves) k, w')) /\
           forall context2,
             Sequence_Tick (mkComposite (children three_leaves) k, context2)
             = match child context2 with
               | (Failure, w2) =>
                   (Failure, (mkComposite (children three_leaves) begin, w2))
               | (Running, w2) =>
                   (Running, (mkComposite (children three_leaves) k, w2))
               | (Success, w2) =>
                   Sequence_Tick
                     (mkComposite (children three_leaves) (S k), w2)
               end)).
Proof.
  apply (Sequence_Tick_resume three_leaves (mkProbe false [])).
  simpl. unfold begin. lia.
Defined.

(** The specification's first scenario: the selector built over a failing
    sequence and a succeeding leaf returns Success, tick after tick; and a
    tree without root returns Failure. *)
Example built_tree_succeeds :
  tick_trace built_tree outer_selector (inner_sequence, tt) [id; id]
  = [Success; Success]
  /\ BehaviourTree_Tick None tt = (Failure, tt).
Proof. split; reflexivity. Qed.

(** The specification's scenario: Repeater(3) around a failing leaf. *)
Example Repeater_three_failures :
  tick_trace (Repeater_Tick failing_leaf) (Repeater_new 3) tt
    [id; id; id; id]
  = [Running; Running; Failure; Running].
Proof. reflexivity. Qed.

Lemma Repeater_semantics_witness :
  ((forall j, (j < 2)%nat ->
      status_of_tick (Repeater_Tick failing_leaf) j (Repeater_new 3, tt)
      = Running)
   /\ status_of_tick (Repeater_Tick failing_leaf) 2 (Repeater_new 3, tt)
      = Failure
   /\ counter (fst (after_ticks (Repeater_Tick failing_leaf) 3
                      (Repeater_new 3, tt))) = 0)
  /\ status_of_tick (Repeater_Tick failing_leaf) 5 (Repeater_new 0, tt)
     = Running
  /\ (fst (Repeater_Tick succeeding_leaf (mkRepeater 3 2, tt)) = Success /\
      counter (fst (snd (Repeater_Tick succeeding_leaf (mkRepeater 3 2, tt))))
      = 0).
Proof.
  split; [|split].
  - apply (proj1 (Repeater_semantics failing_leaf) 3 tt 2%nat).
    + intros context. reflexivity.
    + unfold SIZE_WIDTH. lia.
    + reflexivity.
  - apply (proj1 (proj2 (Repeater_semantics failing_leaf)) tt 5%nat).
    + intros context. reflexivity.
    + unfold SIZE_WIDTH. lia.
  - apply (proj2 (proj2 (Repeater_semantics succeeding_leaf))
             (mkRepeater 3 2) tt).
    reflexivity.
Defined.

(** C3, on the code.  A Repeater(3) around a leaf that always fails is to
    return Running, Running, Failure.  The constructor of the source
    assigns [conter], not [counter], so the count starts from whatever
    [counter] holds: from 1 the three ticks return Running, Failure,
    Running, from 5 they return Running three times, and they return
    Running, Running, Failure only when the storage happens to hold 0. *)
Theorem Repeater_constructor_leaves_counter :
  tick_trace (Repeater_Tick failing_leaf) (Repeater_constructor 3 1) tt
    [id; id; id]
  = [Running; Failure; Running]
  /\ tick_trace (Repeater_Tick failing_leaf) (Repeater_constructor 3 5) tt
       [id; id; id]
     = [Running; Running; Running]
  /\ tick_trace (Repeater_Tick failing_leaf) (Repeater_constructor 3 0) tt
       [id; id; id]
     = [Running; Running; Failure]
  /\ (forall n_ indeterminate,
        n (Repeater_constructor n_ indeterminate) = n_ /\
        counter (Repeater_constructor n_ indeterminate) = indeterminate).
Proof.
  split; [reflexivity|]. split; [reflexivity|]. split; [reflexivity|].
  intros n_ indeterminate. split; reflexivity.
Qed.

(** The counter of a Repeater(0) that only meets failures comes back to 0,
    which is n, on failure number 2^64: Running on the 2^64 - 1 ticks
    before, Failure on that one. *)
Lemma Repeater_zero_returns_Failure :
  exists k : nat,
    Z.of_nat k = 2 ^ 64 - 1 /\
    (forall j, (j < k)%nat ->
       status_of_tick (Repeater_Tick failing_leaf) j (Repeater_new 0, tt)
       = Running) /\
    status_of_tick (Repeater_Tick failing_leaf) k (Repeater_new 0, tt)
    = Failure.
Proof.
  exists (Z.to_nat (2 ^ 64 - 1)).
  assert (Hk : Z.of_nat (Z.to_nat (2 ^ 64 - 1)) = 2 ^ SIZE_WIDTH - 1).
  { apply Z2Nat.id. unfold SIZE_WIDTH. lia. }
  split; [exact Hk|].
  apply Repeater_zero_wraps; [|exact Hk].
  intros context. reflexivity.
Qed.

(** *** The added properties, on the trees above *)

Lemma Selector_Tick_resume_witness :
  exists (k : nat) (w : Probe),
    (it three_leaves <= k <= length (children three_leaves))%nat /\
    all_fail
      (firstn (k - it three_leaves)
         (skipn (it three_leaves) (children three_leaves)))
      (mkProbe false []) w /\
    ((k = length (children three_leaves) /\
      Selector_Tick (three_leaves, mkProbe false [])
      = (Failure, (mkComposite (children three_leaves) begin, w)))
     \/ (exists child w', nth_error (children three_leaves) k = Some child /\
           child w = (Success, w') /\
           Selector_Tick (three_leaves, mkProbe false [])
           = (Success, (mkComposite (children three_leaves) begin, w')))
     \/ (exists child w', nth_error (children three_leaves) k = Some child /\
           child w = (Running, w') /\
           Selector_Tick (three_leaves, mkProbe false [])
           = (Running, (mkComposite (children three_leaves) k, w')) /\
           forall context2,
             Selector_Tick (mkComposite (children three_leaves) k, context2)
             = match child context2 with
               | (Failure, w2) =>
                   Selector_Tick
                     (mkComposite (children three_leaves) (S k), w2)
               | (Running, w2) =>
                   (Running, (mkComposite (children three_leaves) k, w2))
               | (Success, w2) =>
                   (Success, (mkComposite (children three_leaves) begin, w2))
               end)).
Proof.
  apply (Selector_Tick_resume three_leaves (mkProbe false [])).
  simpl. unfold begin. lia.
Defined.

Lemma composite_folds_witness :
  Sequence_Tick (three_leaves, mkProbe true [])
  = (Success, (mkComposite (children three_leaves) begin,
               mkProbe true [1; 2; 3]%nat))
  /\ Selector_Tick (inner_sequence, tt)
     <> (Failure, (mkComposite (children inner_sequence) begin, tt)).
Proof.
  split.
  - apply (proj2 (proj1 (composite_folds three_leaves (mkProbe true [])
                           (mkProbe true [1; 2; 3]%nat)))).
    repeat econstructor.
  - intros Hfail.
    apply (proj1 (proj2 (composite_folds inner_sequence tt tt))) in Hfail.
    inversion Hfail as [|c rest w w' w'' _ Hrest]; subst.
    inversion Hrest as [|c' rest' w1 w2 w3 Hc _]; subst.
    discriminate Hc.
Defined.

Lemma composite_cursor_witness :
  keeps_cursor three_leaves (Sequence_Tick (three_leaves, mkProbe false []))
  /\ keeps_cursor three_leaves
       (Selector_Tick (three_leaves, mkProbe false [])).
Proof.
  apply (composite_cursor three_leaves (mkProbe false [])).
  simpl. unfold begin. lia.
Defined.

Lemma AddChild_appends_witness :
  children (fold_left AddChild [second_leaf; third_leaf]
              (mkComposite [first_leaf] 1))
  = [first_leaf] ++ [second_leaf; third_leaf]
  /\ it (fold_left AddChild [second_leaf; third_leaf]
           (mkComposite [first_leaf] 1)) = begin.
Proof.
  apply (AddChild_appends [second_leaf; third_leaf]
           (mkComposite [first_leaf] 1)).
  discriminate.
Defined.

Lemma Succeeder_never_fails_witness :
  fst (Succeeder_Tick failing_leaf tt) = Success
  /\ fst (Inverter_Tick (Succeeder_Tick succeeding_leaf) tt) = Failure.
Proof.
  destruct (Succeeder_never_fails failing_leaf tt) as (Hs & _).
  destruct (Succeeder_never_fails succeeding_leaf tt) as (_ & Hi & _).
  split.
  - destruct (fst (Succeeder_Tick failing_leaf tt)) eqn:E;
      [contradiction|discriminate E|reflexivity].
  - destruct (fst (Inverter_Tick (Succeeder_Tick succeeding_leaf) tt)) eqn:E;
      [reflexivity|discriminate E|contradiction].
Defined.

Lemma Repeater_counter_bound_witness :
  n (fst (snd (Repeater_Tick failing_leaf (mkRepeater 3 2, tt)))) = 3 /\
  0 <= counter (fst (snd (Repeater_Tick failing_leaf (mkRepeater 3 2, tt))))
    < 3.
Proof.
  apply (Repeater_counter_bound failing_leaf (mkRepeater 3 2) tt).
  - simpl. lia.
  - unfold SIZE_WIDTH. simpl. lia.
Defined.

Lemma Repeater_status_witness :
  fst (Repeater_Tick succeeding_leaf (mkRepeater 3 2, tt)) = Success
  /\ fst (failing_leaf tt) = Failure.
Proof.
  split.
  - apply (proj2 (proj1 (Repeater_status succeeding_leaf (mkRepeater 3 2) tt))).
    reflexivity.
  - apply (proj1 (proj2 (Repeater_status failing_leaf (mkRepeater 1 0) tt))).
    reflexivity.
Defined.

End BehaviourTreeProperties.

(* ===================================================================== *)
(** ** Properties of the inventory manager                                *)
(* ===================================================================== *)

Section InventoryProperties.
Import Inventory.

Section OverAHeader.
Context `{Header}.
Implicit Types (self : InventoryManager) (slot : Slot).

(** *** The selected slot of the hotbar *)

Lemma GetHotbarSelected_absent self :
  GetPlayerInventory self = None -> GetHotbarSelected self = Some Slot_new.
Proof. unfold GetHotbarSelected. intros ->. reflexivity. Qed.

Lemma GetHotbarSelected_present self inventory :
  GetPlayerInventory self = Some inventory -> GetHotbarSelected self = None.
Proof. unfold GetHotbarSelected. intros ->. reflexivity. Qed.

(** *** The handlers and the selected index *)

Lemma to_short_id z : -32768 <= z <= 32767 -> to_short z = z.
Proof. intros Hz. unfold to_short. rewrite Z.mod_small; lia. Qed.

Lemma SetSlot_index_hotbar_selected window_id index slot self :
  index_hotbar_selected (SetSlot window_id index slot self)
  = index_hotbar_selected self.
Proof. unfold SetSlot. destruct (inventories self !! _); reflexivity. Qed.

Lemma WindowItems_loop_index_hotbar_selected msg todo i self :
  index_hotbar_selected (WindowItems_loop msg todo i self)
  = index_hotbar_selected self.
Proof.
  revert i self. induction todo as [|todo IH]; intros i self; simpl.
  - reflexivity.
  - rewrite IH. apply SetSlot_index_hotbar_selected.
Qed.

(** Only [HeldItemChangeClientbound] changes the selected index. *)
Lemma Handle_index_hotbar_selected msg self :
  index_hotbar_selected (fst (Handle msg self))
  = match msg with
    | MsgHeldItemChangeClientbound m => to_short (HeldItemChange_Slot m)
    | _ => index_hotbar_selected self
    end.
Proof.
  destruct msg as [m|m|m|m|id]; simpl.
  - unfold Handle_SetSlot.
    repeat match goal with |- context [if ?b then _ else _] => destruct b end;
      simpl; auto using SetSlot_index_hotbar_selected.
  - apply WindowItems_loop_index_hotbar_selected.
  - reflexivity.
  - reflexivity.
  - reflexivity.
Qed.

Lemma In_firstn {A : Type} (x : A) (k : nat) (l : list A) :
  In x (firstn k l) -> In x l.
Proof.
  revert l. induction k as [|k IH]; intros [|y l]; simpl; try tauto.
  intros [->|Hx]; [left; reflexivity|right; apply IH; exact Hx].
Qed.

Lemma Handle_all_hotbar_range msgs self :
  slots_in_hotbar msgs ->
  0 <= index_hotbar_selected self <= 8 ->
  0 <= index_hotbar_selected (Handle_all msgs self) <= 8.
Proof.
  revert self. induction msgs as [|msg msgs IH]; intros self Hmsgs Hself.
  - exact Hself.
  - simpl. apply IH.
    + intros m Hm. apply Hmsgs. right. exact Hm.
    + rewrite Handle_index_hotbar_selected. destruct msg; try exact Hself.
      assert (0 <= HeldItemChange_Slot msg <= 8)
        by (apply Hmsgs; left; reflexivity).
      rewrite to_short_id; lia.
Qed.

(** C9. From a new manager, along any sequence of handled messages whose
    HeldItemChangeClientbound messages all carry a slot from 0 to 8, the
    selected hotbar index is between 0 and 8 after every message; and
    handling one of these HeldItemChangeClientbound messages, in any state,
    sets the index to the slot it carries. *)
Theorem index_hotbar_selected_range msgs :
  slots_in_hotbar msgs ->
  (forall k : nat,
     0 <= index_hotbar_selected
            (Handle_all (firstn k msgs) InventoryManager_new) <= 8)
  /\ (forall self m, In (MsgHeldItemChangeClientbound m) msgs ->
        index_hotbar_selected
          (fst (Handle (MsgHeldItemChangeClientbound m) self))
        = HeldItemChange_Slot m).
Proof.
  intros Hmsgs. split.
  - intros k. apply Handle_all_hotbar_range.
    + intros m Hm. apply Hmsgs. revert Hm. apply In_firstn.
    + simpl. lia.
  - intros self m Hm. simpl. apply to_short_id.
    specialize (Hmsgs m Hm). lia.
Qed.

(** *** SetSlot *)

(** C7. In every state and for every slot value X, handling
    SetSlot with window -1 and slot -1 sets the cursor to X, writes no
    diagnostic and leaves the inventories (and the selected index) as they
    are: what GetInventory(-1) gives is unchanged, and it is absent when
    the message comes to a new manager. *)
Theorem Handle_SetSlot_cursor self slot :
  let result := Handle_SetSlot (mkSetSlot (-1) (-1) slot) self in
  GetCursor (fst result) = slot /\
  inventories (fst result) = inventories self /\
  index_hotbar_selected (fst result) = index_hotbar_selected self /\
  snd result = [] /\
  GetInventory (-1) (fst result) = GetInventory (-1) self /\
  GetInventory (-1)
    (fst (Handle_SetSlot (mkSetSlot (-1) (-1) slot) InventoryManager_new))
  = None.
Proof. repeat split. Qed.

(** C8. A SetSlot message whose window id is at most -3 leaves the manager
    as it is, inventories, cursor and selected index, and writes one
    diagnostic with the window id and the slot. *)
Theorem Handle_SetSlot_unknown_window msg self :
  SetSlot_WindowId msg <= -3 ->
  Handle_SetSlot msg self
  = (self, [UnknownWindow (SetSlot_WindowId msg) (SetSlot_Slot msg)]).
Proof.
  intros Hw. unfold Handle_SetSlot.
  destruct (Z.eqb_spec (SetSlot_WindowId msg) (-1)); [lia|].
  destruct (Z.eqb_spec (SetSlot_WindowId msg) (-2)); [lia|].
  destruct (Z.leb_spec 0 (SetSlot_WindowId msg)); [lia|].
  reflexivity.
Qed.

(** *** The overload for the other messages *)

(** C10. The Handle overload for a plain Message leaves the manager as it
    is, inventories, cursor and selected index, and writes nothing. *)
Theorem Handle_Message_unchanged {M : Type} (msg : M) self :
  Handle_Message msg self = (self, []) /\
  inventories (fst (Handle_Message msg self)) = inventories self /\
  cursor (fst (Handle_Message msg self)) = cursor self /\
  index_hotbar_selected (fst (Handle_Message msg self))
  = index_hotbar_selected self.
Proof. repeat split. Qed.

(** *** Slots stored and found again *)

Lemma to_short_range z : -32768 <= to_short z <= 32767.
Proof. unfold to_short. pose proof (Z.mod_pos_bound (z + 32768) 65536). lia. Qed.

Lemma to_short_idem z : to_short (to_short z) = to_short z.
Proof. apply to_short_id. apply to_short_range. Qed.

(** What [SetSlot] stores, slot by slot and window by window. *)
Lemma SetSlot_slot_at window_id index slot self w j :
  slot_at (SetSlot window_id index slot self) w j
  = if decide (to_short w = to_short window_id
               /\ to_short j = to_short index)
    then Some slot
    else slot_at self w j.
Proof.
  unfold slot_at, SetSlot, Inventory_new.
  destruct (decide (to_short w = to_short window_id)) as [->|Hw].
  - destruct (inventories self !! to_short window_id) as [inventory|] eqn:E;
      cbn [inventories]; rewrite lookup_insert_eq; cbn [mbind option_bind slots].
    + destruct (decide (to_short j = to_short index)) as [->|Hj].
      * rewrite lookup_insert_eq, decide_True by (split; reflexivity). reflexivity.
      * rewrite lookup_insert_ne, decide_False by (try intros [_ ?]; congruence). reflexivity.
    + destruct (decide (to_short j = to_short index)) as [->|Hj].
      * rewrite lookup_insert_eq, decide_True by (split; reflexivity). reflexivity.
      * rewrite lookup_insert_ne, decide_False by (try intros [_ ?]; congruence).
        rewrite lookup_empty. reflexivity.
  - rewrite decide_False by (intros [? _]; congruence).
    destruct (inventories self !! to_short window_id);
      cbn [inventories]; rewrite lookup_insert_ne by congruence; reflexivity.
Qed.

Lemma slot_at_GetSlot self w j slot :
  slot_at self w j = Some slot ->
  exists inventory, GetInventory w self = Some inventory
                    /\ Inventory_GetSlot inventory j = slot.
Proof.
  unfold slot_at, GetInventory, Inventory_GetSlot.
  destruct (inventories self !! to_short w) as [inventory|];
    cbn [mbind option_bind]; [|discriminate].
  intros Hj. exists inventory. rewrite Hj. split; reflexivity.
Qed.

(** X8. A slot stored by [SetSlot] is found again: after
    [SetSlot(window_id, index, slot)] the window has an inventory, and
    [GetSlot(index)] on it is [slot], whether or not the window had an
    inventory before. *)
Theorem SetSlot_GetSlot window_id index slot self :
  exists inventory,
    GetInventory window_id (SetSlot window_id index slot self) = Some inventory
    /\ Inventory_GetSlot inventory index = slot.
Proof.
  apply slot_at_GetSlot. rewrite SetSlot_slot_at, decide_True by (split; reflexivity).
  reflexivity.
Qed.

Lemma SetSlot_inventories_ne window_id index slot self w :
  to_short w <> to_short window_id ->
  inventories (SetSlot window_id index slot self) !! to_short w
  = inventories self !! to_short w.
Proof.
  intros Hw. unfold SetSlot.
  destruct (inventories self !! to_short window_id);
    cbn [inventories]; rewrite lookup_insert_ne by congruence; reflexivity.
Qed.

(** X9. [SetSlot] touches one slot of one window: the inventory of any
    other window is what it was, the other slots of the window written to
    are what they were (empty when the window had no inventory), and the
    cursor and the selected index are what they were. *)
Theorem SetSlot_frame window_id index slot self :
  (forall w, to_short w <> to_short window_id ->
     GetInventory w (SetSlot window_id index slot self) = GetInventory w self)
  /\ (forall j inventory',
        to_short j <> to_short index ->
        GetInventory window_id (SetSlot window_id index slot self)
        = Some inventory' ->
        Inventory_GetSlot inventory' j
        = match GetInventory window_id self with
          | Some inventory => Inventory_GetSlot inventory j
          | None => Slot_new
          end)
  /\ cursor (SetSlot window_id index slot self) = cursor self
  /\ index_hotbar_selected (SetSlot window_id index slot self)
     = index_hotbar_selected self.
Proof.
  split; [|split; [|split]].
  - intros w Hw. unfold GetInventory. apply SetSlot_inventories_ne. exact Hw.
  - intros j inventory' Hj.
    unfold GetInventory, SetSlot, Inventory_GetSlot, Inventory_new.
    destruct (inventories self !! to_short window_id) as [inventory|];
      cbn [inventories]; rewrite lookup_insert_eq; intros [= <-];
      cbn [slots]; rewrite lookup_insert_ne by congruence.
    + reflexivity.
    + rewrite lookup_empty. reflexivity.
  - unfold SetSlot. destruct (inventories self !! _); reflexivity.
  - apply SetSlot_index_hotbar_selected.
Qed.

(** X10. A [SetSlot] message for a window id that is 0 or more stores its
    slot data in the inventory of that window, and one for window -2 stores
    it in the player inventory; in both cases no diagnostic is written. *)
Theorem Handle_SetSlot_stores msg self :
  (0 <= SetSlot_WindowId msg ->
   snd (Handle_SetSlot msg self) = [] /\
   exists inventory,
     GetInventory (SetSlot_WindowId msg) (fst (Handle_SetSlot msg self))
     = Some inventory
     /\ Inventory_GetSlot inventory (SetSlot_Slot msg) = SetSlot_SlotData msg)
  /\ (SetSlot_WindowId msg = -2 ->
      snd (Handle_SetSlot msg self) = [] /\
      exists inventory,
        GetPlayerInventory (fst (Handle_SetSlot msg self)) = Some inventory
        /\ Inventory_GetSlot inventory (SetSlot_Slot msg)
           = SetSlot_SlotData msg).
Proof.
  split; intros Hw; unfold Handle_SetSlot.
  - destruct (Z.eqb_spec (SetSlot_WindowId msg) (-1)); [lia|].
    destruct (Z.eqb_spec (SetSlot_WindowId msg) (-2)); [lia|].
    destruct (Z.leb_spec 0 (SetSlot_WindowId msg)); [|lia].
    cbn [andb fst snd]. split; [reflexivity|]. apply slot_at_GetSlot.
    rewrite SetSlot_slot_at, decide_True by (split; reflexivity). reflexivity.
  - rewrite Hw. cbn [Z.eqb andb fst snd Pos.eqb].
    split; [reflexivity|]. apply slot_at_GetSlot.
    rewrite SetSlot_slot_at, decide_True by (split; reflexivity). reflexivity.
Qed.

(** X11. A diagnostic is written only for a [SetSlot] message with an
    unknown window (window id at most -3, or -1 with a slot other than
    -1), and a message that writes one changes nothing in the manager. *)
Theorem Handle_diagnostic msg self :
  snd (Handle msg self) <> [] ->
  fst (Handle msg self) = self /\
  exists m, msg = MsgSetSlot m /\
    snd (Handle msg self)
    = [UnknownWindow (SetSlot_WindowId m) (SetSlot_Slot m)] /\
    (SetSlot_WindowId m <= -3
     \/ (SetSlot_WindowId m = -1 /\ SetSlot_Slot m <> -1)).
Proof.
  destruct msg as [m|m|m|m|id]; cbn [Handle]; try (intros Hd; exfalso; apply Hd; reflexivity).
  unfold Handle_SetSlot.
  destruct (Z.eqb_spec (SetSlot_WindowId m) (-1)) as [Hw1|Hw1];
    destruct (Z.eqb_spec (SetSlot_Slot m) (-1)) as [Hs|Hs]; cbn [andb];
    try (intros Hd; exfalso; apply Hd; reflexivity);
    destruct (Z.eqb_spec (SetSlot_WindowId m) (-2)) as [Hw2|Hw2];
    try (intros Hd; exfalso; apply Hd; reflexivity);
    destruct (Z.leb_spec 0 (SetSlot_WindowId m)) as [Hw0|Hw0];
    try (intros Hd; exfalso; apply Hd; reflexivity);
    intros _; (split; [reflexivity|]); exists m;
    (split; [reflexivity|]); (split; [reflexivity|]); lia.
Qed.

(** X12. A [SetSlot] message for window -1 with a slot other than -1 is
    an unknown window as well: one diagnostic, and the manager as it
    was. *)
Theorem Handle_SetSlot_cursor_window_other_slot msg self :
  SetSlot_WindowId msg = -1 -> SetSlot_Slot msg <> -1 ->
  Handle_SetSlot msg self
  = (self, [UnknownWindow (-1) (SetSlot_Slot msg)]).
Proof.
  intros Hw Hs. unfold Handle_SetSlot. rewrite Hw.
  destruct (Z.eqb_spec (SetSlot_Slot msg) (-1)); [contradiction|].
  reflexivity.
Qed.

(** *** Inventories added and erased *)

(** X13. After [EraseInventory(window_id)] the window has no inventory, the
    other windows, the cursor and the selected index are what they were,
    and erasing a window that has no inventory changes nothing. *)
Theorem EraseInventory_erases window_id self :
  GetInventory window_id (EraseInventory window_id self) = None
  /\ (forall w, to_short w <> to_short window_id ->
        GetInventory w (EraseInventory window_id self) = GetInventory w self)
  /\ cursor (EraseInventory window_id self) = cursor self
  /\ index_hotbar_selected (EraseInventory window_id self)
     = index_hotbar_selected self
  /\ (GetInventory window_id self = None ->
      EraseInventory window_id self = self).
Proof.
  unfold GetInventory, EraseInventory. cbn [inventories].
  split; [apply lookup_delete_eq|].
  split; [intros w Hw; apply lookup_delete_ne; congruence|].
  split; [reflexivity|]. split; [reflexivity|].
  intros Hnone. rewrite delete_id by exact Hnone. destruct self; reflexivity.
Qed.

(** X14. [OpenWindow] gives its window an inventory in which every slot
    is empty, whatever the window held before; the other windows, the
    cursor and the selected index are what they were. *)
Theorem Handle_OpenWindow_empties msg self :
  (exists inventory,
     GetInventory (OpenWindow_WindowId msg) (fst (Handle_OpenWindow msg self))
     = Some inventory
     /\ forall j, Inventory_GetSlot inventory j = Slot_new)
  /\ (forall w, to_short w <> to_short (OpenWindow_WindowId msg) ->
        GetInventory w (fst (Handle_OpenWindow msg self))
        = GetInventory w self)
  /\ cursor (fst (Handle_OpenWindow msg self)) = cursor self
  /\ index_hotbar_selected (fst (Handle_OpenWindow msg self))
     = index_hotbar_selected self.
Proof.
  unfold Handle_OpenWindow, AddInventory, GetInventory. cbn [fst inventories].
  split; [|split; [|split; reflexivity]].
  - exists Inventory_new. rewrite lookup_insert_eq. split; [reflexivity|].
    intros j. unfold Inventory_GetSlot, Inventory_new. cbn [slots].
    rewrite lookup_empty. reflexivity.
  - intros w Hw. apply lookup_insert_ne. congruence.
Qed.

(** X15. On one window, of [AddInventory] and [EraseInventory] the last
    call decides: erasing after adding is erasing, and adding after
    erasing (or after adding) is adding. *)
Theorem AddInventory_EraseInventory window_id self :
  EraseInventory window_id (AddInventory window_id self)
  = EraseInventory window_id self
  /\ AddInventory window_id (EraseInventory window_id self)
     = AddInventory window_id self
  /\ AddInventory window_id (AddInventory window_id self)
     = AddInventory window_id self.
Proof.
  unfold EraseInventory, AddInventory. cbn [inventories index_hotbar_selected cursor].
  rewrite delete_insert_eq, insert_delete_eq, insert_insert_eq.
  repeat split.
Qed.

(** *** WindowItems *)

Lemma WindowItems_loop_slot_at msg todo : forall i self w j,
  0 <= i -> i + Z.of_nat todo <= 32768 ->
  -32768 <= j <= 32767 ->
  slot_at (WindowItems_loop msg todo i self) w j
  = if decide (to_short w = to_short (WindowItems_WindowId msg)
               /\ i <= j < i + Z.of_nat todo)
    then Some (nth (Z.to_nat j) (WindowItems_SlotData msg) Slot_new)
    else slot_at self w j.
Proof.
  induction todo as [|todo IH]; intros i self w j Hi Htodo Hj.
  - cbn [WindowItems_loop]. rewrite decide_False by lia. reflexivity.
  - cbn [WindowItems_loop]. rewrite IH by lia.
    rewrite SetSlot_slot_at.
    rewrite (to_short_id j), (to_short_id i) by lia.
    destruct (decide (to_short w = to_short (WindowItems_WindowId msg)))
      as [Hw|Hw].
    + destruct (decide (i + 1 <= j < i + 1 + Z.of_nat todo)).
      * rewrite !decide_True by (split; [exact Hw|lia]). reflexivity.
      * rewrite (decide_False (P := _ /\ i + 1 <= j < _)) by (intros [_ ?]; lia).
        destruct (decide (j = i)) as [->|Hne].
        -- rewrite !decide_True by (split; [exact Hw|lia]). reflexivity.
        -- rewrite !decide_False by (intros [_ ?]; lia). reflexivity.
    + rewrite !decide_False by (intros [? _]; contradiction). reflexivity.
Qed.

(** X16. [WindowItems] with a count from 1 to 32768 that does not exceed
    the number of items gives the window an inventory in which, for every
    index below the count, [GetSlot] is the item of that index; with a
    count of 0 or less it changes nothing, and it writes no diagnostic. *)
Theorem Handle_WindowItems_assigns msg self :
  (0 < WindowItems_Count msg <= 32768 ->
   WindowItems_Count msg <= Z.of_nat (length (WindowItems_SlotData msg)) ->
   exists inventory,
     GetInventory (WindowItems_WindowId msg)
       (fst (Handle_WindowItems msg self)) = Some inventory
     /\ forall j item,
          nth_error (WindowItems_SlotData msg) j = Some item ->
          Z.of_nat j < WindowItems_Count msg ->
          Inventory_GetSlot inventory (Z.of_nat j) = item)
  /\ (WindowItems_Count msg <= 0 -> fst (Handle_WindowItems msg self) = self)
  /\ snd (Handle_WindowItems msg self) = [].
Proof.
  split; [|split; [|reflexivity]].
  - intros Hcount Hlen. unfold Handle_WindowItems. cbn [fst].
    assert (Hat : forall j, 0 <= j < WindowItems_Count msg ->
              slot_at (WindowItems_loop msg (Z.to_nat (WindowItems_Count msg))
                         0 self) (WindowItems_WindowId msg) j
              = Some (nth (Z.to_nat j) (WindowItems_SlotData msg) Slot_new)).
    { intros j Hj. rewrite WindowItems_loop_slot_at by lia.
      rewrite decide_True by (split; [reflexivity|lia]). reflexivity. }
    destruct (slot_at_GetSlot _ _ _ _ (Hat 0 ltac:(lia)))
      as (inventory & Hinv & _).
    exists inventory. split; [exact Hinv|].
    intros j item Hitem Hj.
    destruct (slot_at_GetSlot _ _ _ _ (Hat (Z.of_nat j) ltac:(lia)))
      as (inventory' & Hinv' & Hslot).
    rewrite Hinv in Hinv'. injection Hinv' as <-.
    rewrite Hslot, Nat2Z.id. apply nth_error_nth. exact Hitem.
  - intros Hcount. unfold Handle_WindowItems. cbn [fst].
    replace (Z.to_nat (WindowItems_Count msg)) with 0%nat by lia.
    reflexivity.
Qed.

(** *** What the handlers leave alone *)

Lemma WindowItems_loop_cursor msg todo i self :
  cursor (WindowItems_loop msg todo i self) = cursor self.
Proof.
  revert i self. induction todo as [|todo IH]; intros i self; simpl.
  - reflexivity.
  - rewrite IH. unfold SetSlot. destruct (inventories self !! _); reflexivity.
Qed.

(** X17. The cursor belongs to the manager: of all the messages, only a
    [SetSlot] with window -1 and slot -1 changes it, to the slot data it
    carries. *)
Theorem Handle_cursor msg self :
  cursor (fst (Handle msg self))
  = match msg with
    | MsgSetSlot m =>
        if (SetSlot_WindowId m =? -1) && (SetSlot_Slot m =? -1)
        then SetSlot_SlotData m
        else cursor self
    | _ => cursor self
    end.
Proof.
  destruct msg as [m|m|m|m|id]; cbn [Handle].
  - unfold Handle_SetSlot.
    destruct ((SetSlot_WindowId m =? -1) && (SetSlot_Slot m =? -1));
      [reflexivity|].
    repeat match goal with |- context [if ?b then _ else _] => destruct b end;
      cbn [fst]; try reflexivity;
      unfold SetSlot; destruct (inventories self !! _); reflexivity.
  - apply WindowItems_loop_cursor.
  - reflexivity.
  - reflexivity.
  - reflexivity.
Qed.

Lemma SetSlot_keeps window_id index slot self w :
  is_Some (GetInventory w self) ->
  is_Some (GetInventory w (SetSlot window_id index slot self)).
Proof.
  unfold GetInventory. intros Hw.
  destruct (decide (to_short w = to_short window_id)) as [->|Hne].
  - unfold SetSlot. destruct (inventories self !! to_short window_id);
      cbn [inventories]; rewrite lookup_insert_eq; eauto.
  - rewrite SetSlot_inventories_ne by exact Hne. exact Hw.
Qed.

Lemma WindowItems_loop_keeps msg todo i self w :
  is_Some (GetInventory w self) ->
  is_Some (GetInventory w (WindowItems_loop msg todo i self)).
Proof.
  revert i self. induction todo as [|todo IH]; intros i self Hw; simpl.
  - exact Hw.
  - apply IH. apply SetSlot_keeps. exact Hw.
Qed.

Lemma Handle_keeps msg self w :
  is_Some (GetInventory w self) ->
  is_Some (GetInventory w (fst (Handle msg self))).
Proof.
  intros Hw. destruct msg as [m|m|m|m|id]; cbn [Handle].
  - unfold Handle_SetSlot.
    repeat match goal with |- context [if ?b then _ else _] => destruct b end;
      cbn [fst]; auto using SetSlot_keeps.
  - apply WindowItems_loop_keeps. exact Hw.
  - unfold Handle_OpenWindow, AddInventory, GetInventory in *.
    cbn [fst inventories].
    destruct (decide (to_short w = to_short (OpenWindow_WindowId m)))
      as [->|Hne].
    + rewrite lookup_insert_eq. eauto.
    + rewrite lookup_insert_ne by congruence. exact Hw.
  - exact Hw.
  - exact Hw.
Qed.

(** X18. No message removes an inventory: a window that has an inventory
    still has one after any sequence of handled messages. *)
Theorem Handle_all_keeps_inventories msgs self w :
  is_Some (GetInventory w self) ->
  is_Some (GetInventory w (Handle_all msgs self)).
Proof.
  revert self. induction msgs as [|msg msgs IH]; intros self Hw.
  - exact Hw.
  - cbn [Handle_all]. apply IH. apply Handle_keeps. exact Hw.
Qed.

End OverAHeader.

#[local] Existing Instance sample_header.

(** The specification's scenarios 3 and 4. *)
Example open_window_then_set_slots :
  let self :=
    Handle_all [MsgOpenWindow (mkOpenWindow 9);
                MsgSetSlot (mkSetSlot 9 0 (stack_of 11));
                MsgSetSlot (mkSetSlot 9 2 (stack_of 22))]
      InventoryManager_new in
  exists inventory,
    GetInventory 9 self = Some inventory /\
    Inventory_GetSlot inventory 0 = stack_of 11 /\
    Inventory_GetSlot inventory 1 = Slot_new /\
    Inventory_GetSlot inventory 2 = stack_of 22.
Proof. eexists. split; [reflexivity|]. repeat split. Qed.

Lemma index_hotbar_selected_range_witness :
  let msgs := [MsgOpenWindow (mkOpenWindow 9);
               MsgHeldItemChangeClientbound (mkHeldItemChange 5);
               MsgSetSlot (mkSetSlot (-2) 36 (stack_of 7))] in
  (forall k : nat,
     0 <= index_hotbar_selected
            (Handle_all (firstn k msgs) InventoryManager_new) <= 8)
  /\ (forall self m, In (MsgHeldItemChangeClientbound m) msgs ->
        index_hotbar_selected
          (fst (Handle (MsgHeldItemChangeClientbound m) self))
        = HeldItemChange_Slot m).
Proof.
  apply (index_hotbar_selected_range
           [MsgOpenWindow (mkOpenWindow 9);
            MsgHeldItemChangeClientbound (mkHeldItemChange 5);
            MsgSetSlot (mkSetSlot (-2) 36 (stack_of 7))]).
  intros m [Hm|[Hm|[Hm|[]]]]; try discriminate Hm.
  injection Hm as <-. simpl. lia.
Defined.

Lemma Handle_SetSlot_unknown_window_witness :
  Handle_SetSlot (mkSetSlot (-3) 4 (stack_of 9)) InventoryManager_new
  = (InventoryManager_new, [UnknownWindow (-3) 4]).
Proof.
  apply (Handle_SetSlot_unknown_window (mkSetSlot (-3) 4 (stack_of 9))).
  simpl. lia.
Defined.

(** C1, on the code. With a player inventory that holds a stack of 7 in
    the selected slot of the hotbar, [GetHotbarSelected] reaches the end
    of its body without a return statement: it returns no value, where
    the claim has it return the stack of 7. *)
Theorem GetHotbarSelected_returns_nothing :
  let self :=
    fst (Handle_SetSlot (mkSetSlot (-2) 36 (stack_of 7))
           InventoryManager_new) in
  (exists inventory,
     GetPlayerInventory self = Some inventory /\
     Inventory_GetSlot inventory
       (INVENTORY_HOTBAR_START + index_hotbar_selected self) = stack_of 7) /\
  GetHotbarSelected self = None /\
  GetHotbarSelected InventoryManager_new = Some Slot_new.
Proof.
  split; [|split].
  - eexists. split; [reflexivity|]. vm_compute. reflexivity.
  - reflexivity.
  - reflexivity.
Qed.

(** *** The added properties, on the sample header *)

Lemma SetSlot_frame_witness :
  GetInventory 5 (SetSlot 9 0 (stack_of 7) InventoryManager_new)
  = GetInventory 5 InventoryManager_new
  /\ (forall inventory',
        GetInventory 9 (SetSlot 9 0 (stack_of 7) InventoryManager_new)
        = Some inventory' ->
        Inventory_GetSlot inventory' 1 = Slot_new).
Proof.
  destruct (SetSlot_frame 9 0 (stack_of 7) InventoryManager_new)
    as (Hwindow & Hslot & _).
  split.
  - apply Hwindow. vm_compute. discriminate.
  - intros inventory' Hinv. apply (Hslot 1 inventory'); [|exact Hinv].
    vm_compute. discriminate.
Defined.

Lemma Handle_SetSlot_stores_witness :
  (snd (Handle_SetSlot (mkSetSlot 5 3 (stack_of 7)) InventoryManager_new) = []
   /\ exists inventory,
        GetInventory 5
          (fst (Handle_SetSlot (mkSetSlot 5 3 (stack_of 7))
                  InventoryManager_new)) = Some inventory
        /\ Inventory_GetSlot inventory 3 = stack_of 7)
  /\ (snd (Handle_SetSlot (mkSetSlot (-2) 36 (stack_of 7))
             InventoryManager_new) = []
      /\ exists inventory,
           GetPlayerInventory
             (fst (Handle_SetSlot (mkSetSlot (-2) 36 (stack_of 7))
                     InventoryManager_new)) = Some inventory
           /\ Inventory_GetSlot inventory 36 = stack_of 7).
Proof.
  split.
  - apply (proj1 (Handle_SetSlot_stores (mkSetSlot 5 3 (stack_of 7))
                    InventoryManager_new)).
    simpl. lia.
  - apply (proj2 (Handle_SetSlot_stores (mkSetSlot (-2) 36 (stack_of 7))
                    InventoryManager_new)).
    reflexivity.
Defined.

Lemma Handle_diagnostic_witness :
  fst (Handle (MsgSetSlot (mkSetSlot (-7) 4 (stack_of 9)))
         InventoryManager_new) = InventoryManager_new /\
  exists m, MsgSetSlot (mkSetSlot (-7) 4 (stack_of 9)) = MsgSetSlot m /\
    snd (Handle (MsgSetSlot (mkSetSlot (-7) 4 (stack_of 9)))
           InventoryManager_new)
    = [UnknownWindow (SetSlot_WindowId m) (SetSlot_Slot m)] /\
    (SetSlot_WindowId m <= -3
     \/ (SetSlot_WindowId m = -1 /\ SetSlot_Slot m <> -1)).
Proof.
  apply (Handle_diagnostic (MsgSetSlot (mkSetSlot (-7) 4 (stack_of 9)))
           InventoryManager_new).
  simpl. discriminate.
Defined.

Lemma Handle_SetSlot_cursor_window_other_slot_witness :
  Handle_SetSlot (mkSetSlot (-1) 4 (stack_of 9)) InventoryManager_new
  = (InventoryManager_new, [UnknownWindow (-1) 4]).
Proof.
  apply (Handle_SetSlot_cursor_window_other_slot
           (mkSetSlot (-1) 4 (stack_of 9)) InventoryManager_new).
  - reflexivity.
  - simpl. lia.
Defined.

Lemma EraseInventory_erases_witness :
  GetInventory 5 (EraseInventory 9 (AddInventory 5 InventoryManager_new))
  = GetInventory 5 (AddInventory 5 InventoryManager_new)
  /\ EraseInventory 9 InventoryManager_new = InventoryManager_new.
Proof.
  split.
  - apply (proj1 (proj2 (EraseInventory_erases 9
                           (AddInventory 5 InventoryManager_new))) 5).
    vm_compute. discriminate.
  - apply (proj2 (proj2 (proj2 (proj2
             (EraseInventory_erases 9 InventoryManager_new))))).
    reflexivity.
Defined.

Lemma Handle_OpenWindow_empties_witness :
  GetInventory 5
    (fst (Handle_OpenWindow (mkOpenWindow 9)
            (AddInventory 5 InventoryManager_new)))
  = GetInventory 5 (AddInventory 5 InventoryManager_new).
Proof.
  apply (proj1 (proj2 (Handle_OpenWindow_empties (mkOpenWindow 9)
                         (AddInventory 5 InventoryManager_new))) 5).
  vm_compute. discriminate.
Defined.

Lemma Handle_WindowItems_assigns_witness :
  (exists inventory,
     GetInventory 9
       (fst (Handle_WindowItems
               (mkWindowItems 9 2 [stack_of 11; stack_of 22])
               InventoryManager_new)) = Some inventory
     /\ forall j item,
          nth_error [stack_of 11; stack_of 22] j = Some item ->
          Z.of_nat j < 2 ->
          Inventory_GetSlot inventory (Z.of_nat j) = item)
  /\ fst (Handle_WindowItems (mkWindowItems 9 0 []) InventoryManager_new)
     = InventoryManager_new.
Proof.
  split.
  - apply (proj1 (Handle_WindowItems_assigns
                    (mkWindowItems 9 2 [stack_of 11; stack_of 22])
                    InventoryManager_new)); simpl; lia.
  - apply (proj1 (proj2 (Handle_WindowItems_assigns (mkWindowItems 9 0 [])
                           InventoryManager_new))).
    simpl. lia.
Defined.

Lemma Handle_all_keeps_inventories_witness :
  is_Some
    (GetInventory 9
       (Handle_all [MsgSetSlot (mkSetSlot 9 0 (stack_of 11));
                    MsgOpenWindow (mkOpenWindow 3);
                    MsgWindowItems (mkWindowItems 3 1 [stack_of 22])]
          (AddInventory 9 InventoryManager_new))).
Proof.
  apply (Handle_all_keeps_inventories
           [MsgSetSlot (mkSetSlot 9 0 (stack_of 11));
            MsgOpenWindow (mkOpenWindow 3);
            MsgWindowItems (mkWindowItems 3 1 [stack_of 22])]
           (AddInventory 9 InventoryManager_new) 9).
  eexists. reflexivity.
Defined.

End InventoryProperties.

(* ===================================================================== *)
(** ** Properties of the codec                                            *)
(* ===================================================================== *)

Section CodecProperties.
Import ProtocolCraft.

(** *** The primitives *)

Lemma to_int_wrap v : - 2 ^ 31 <= v < 2 ^ 31 -> to_int (v mod 2 ^ 32) = v.
Proof.
  intros Hv. unfold to_int.
  rewrite Zplus_mod_idemp_l, Z.mod_small; lia.
Qed.

Lemma to_int_small v : 0 <= v < 2 ^ 31 -> to_int v = v.
Proof. intros Hv. unfold to_int. rewrite Z.mod_small; lia. Qed.

Lemma to_long_wrap v : - 2 ^ 63 <= v < 2 ^ 63 -> to_long (v mod 2 ^ 64) = v.
Proof.
  intros Hv. unfold to_long.
  rewrite Zplus_mod_idemp_l, Z.mod_small; lia.
Qed.

Lemma unsigned_of_Z_small z : 0 <= z < 256 -> byte.unsigned (byte.of_Z z) = z.
Proof.
  intros Hz. rewrite byte.unsigned_of_Z. unfold byte.wrap.
  apply Z.mod_small. lia.
Qed.

Lemma land_127 u : Z.land u 127 = u mod 128.
Proof. change 127 with (Z.ones 7). rewrite Z.land_ones by lia. reflexivity. Qed.

Lemma land_128_low t : 0 <= t < 128 -> Z.land t 128 = 0.
Proof.
  intros Ht. apply Z.bits_inj'. intros i Hi.
  rewrite Z.land_spec, Z.bits_0.
  destruct (Z.eq_dec i 7) as [->|Hne].
  - replace (Z.testbit t 7) with false; [reflexivity|].
    symmetry. apply Z.bits_above_log2; [lia|].
    destruct (Z.eq_dec t 0) as [->|]; [simpl; lia|].
    apply Z.log2_lt_pow2; lia.
  - change 128 with (2 ^ 7). rewrite Z.pow2_bits_eqb by lia.
    destruct (Z.eqb_spec 7 i); [lia|]. apply andb_false_r.
Qed.

Lemma lor_128 t : 0 <= t < 128 -> Z.lor t 128 = t + 128.
Proof.
  intros Ht. symmetry. apply Z.add_nocarry_lor. apply land_128_low. exact Ht.
Qed.

Lemma split_low7 u :
  0 <= u -> Z.lor (Z.land u 127) (Z.shiftl (Z.shiftr u 7) 7) = u.
Proof.
  intros Hu. rewrite land_127, Z.shiftr_div_pow2, Z.shiftl_mul_pow2 by lia.
  rewrite <- Z.add_nocarry_lor.
  - change (2 ^ 7) with 128. pose proof (Z.div_mod u 128). lia.
  - change (2 ^ 7) with 128. apply Z.bits_inj'. intros i Hi.
    rewrite Z.land_spec, Z.bits_0.
    destruct (Z_lt_ge_dec i 7) as [Hlt|Hge].
    + change 128 with (2 ^ 7). rewrite Z.mul_pow2_bits_low by lia.
      apply andb_false_r.
    + change 128 with (2 ^ 7). rewrite Z.mod_pow2_bits_high by lia.
      reflexivity.
Qed.

Lemma land_127_low t : 0 <= t < 128 -> Z.land t 127 = t.
Proof. intros Ht. rewrite land_127. apply Z.mod_small. exact Ht. Qed.

Lemma continuation_low t : 0 <= t < 128 -> Z.land (Z.lor t 128) 127 = t.
Proof.
  intros Ht. rewrite lor_128, land_127 by exact Ht.
  rewrite <- (Z.mul_1_l 128) at 1. rewrite Z.mod_add by lia.
  apply Z.mod_small. exact Ht.
Qed.

Lemma continuation_high t : 0 <= t < 128 -> Z.land (Z.lor t 128) 128 = 128.
Proof.
  intros Ht. rewrite Z.land_lor_distr_l, land_128_low by exact Ht.
  reflexivity.
Qed.

Lemma VarInt_loop_roundtrip fuel : forall u shift result rest,
  (0 < fuel)%nat -> 0 <= u < 2 ^ (7 * Z.of_nat fuel) -> 0 <= shift ->
  ReadVarInt_loop fuel shift result (WriteVarInt_loop fuel u ++ rest)
  = Some (to_int (Z.lor result (Z.shiftl u shift)), rest).
Proof.
  induction fuel as [|fuel IH]; intros u shift result rest Hfuel Hu Hshift;
    [lia|].
  assert (Ht : 0 <= Z.land u 127 < 128).
  { rewrite land_127. apply Z.mod_pos_bound. lia. }
  cbn [WriteVarInt_loop ReadVarInt_loop].
  destruct (Z.eqb_spec (Z.shiftr u 7) 0) as [Hlast|Hmore].
  - cbn [app]. rewrite unsigned_of_Z_small by lia.
    rewrite land_128_low by lia. cbn [Z.eqb].
    rewrite land_127_low by lia.
    rewrite <- (split_low7 u) at 2 by lia.
    rewrite Hlast, Z.shiftl_0_l, Z.lor_0_r. reflexivity.
  - cbn [app].
    assert (Hc : 0 <= Z.lor (Z.land u 127) 128 < 256).
    { rewrite lor_128 by lia. lia. }
    rewrite unsigned_of_Z_small by lia.
    rewrite continuation_high, continuation_low by lia. cbn [Z.eqb].
    assert (Hhigh : 0 <= Z.shiftr u 7 < 2 ^ (7 * Z.of_nat fuel)).
    { rewrite Z.shiftr_div_pow2 by lia. split.
      - apply Z.div_pos; lia.
      - apply Z.div_lt_upper_bound; [lia|].
        rewrite <- Z.pow_add_r by lia.
        replace (7 + 7 * Z.of_nat fuel) with (7 * Z.of_nat (S fuel)) by lia.
        lia. }
    destruct fuel as [|fuel'].
    { change (2 ^ (7 * Z.of_nat 0)) with 1 in Hhigh. lia. }
    rewrite IH by lia.
    rewrite <- Z.lor_assoc.
    replace (shift + 7) with (7 + shift) by lia.
    rewrite <- Z.shiftl_shiftl, <- Z.shiftl_lor by lia.
    rewrite split_low7 by lia. reflexivity.
Qed.

Lemma VarInt_roundtrip v rest :
  - 2 ^ 31 <= v < 2 ^ 31 ->
  ReadVarInt (WriteVarInt v [] ++ rest) = Some (v, rest).
Proof.
  intros Hv. unfold ReadVarInt, WriteVarInt. cbn [app].
  rewrite VarInt_loop_roundtrip.
  - rewrite Z.shiftl_0_r, Z.lor_0_l, to_int_wrap by lia. reflexivity.
  - lia.
  - pose proof (Z.mod_pos_bound v (2 ^ 32)).
    change (2 ^ (7 * Z.of_nat 5)) with (2 ^ 35). lia.
  - lia.
Qed.

Lemma BigEndian_roundtrip nbytes : forall acc u rest,
  ReadBigEndian nbytes acc (WriteBigEndian nbytes u ++ rest)
  = Some (acc * 256 ^ Z.of_nat nbytes + u mod 256 ^ Z.of_nat nbytes, rest).
Proof.
  induction nbytes as [|k IH]; intros acc u rest.
  - cbn. rewrite Z.mod_1_r. do 2 f_equal. lia.
  - cbn [WriteBigEndian ReadBigEndian app]. rewrite IH.
    rewrite byte.unsigned_of_Z. unfold byte.wrap.
    rewrite Z.shiftr_div_pow2 by lia.
    replace (2 ^ (8 * Z.of_nat k)) with (256 ^ Z.of_nat k)
      by (change 256 with (2 ^ 8); rewrite <- Z.pow_mul_r by lia; reflexivity).
    replace (Z.of_nat (S k)) with (Z.of_nat k + 1) by lia.
    rewrite Z.pow_add_r by lia. change (256 ^ 1) with 256.
    change (2 ^ 8) with 256.
    assert (Hp : 0 < 256 ^ Z.of_nat k) by (apply Z.pow_pos_nonneg; lia).
    rewrite (Z.rem_mul_r u (256 ^ Z.of_nat k) 256) by lia.
    do 2 f_equal. ring.
Qed.

Lemma Long_roundtrip v rest :
  - 2 ^ 63 <= v < 2 ^ 63 ->
  ReadLong (WriteLong v [] ++ rest) = Some (v, rest).
Proof.
  intros Hv. unfold ReadLong, WriteLong. cbn [app].
  rewrite BigEndian_roundtrip. cbn [mbind option_bind].
  change (256 ^ Z.of_nat 8) with (2 ^ 64).
  rewrite Z.mul_0_l, Z.add_0_l, Z.mod_mod by lia.
  rewrite to_long_wrap by lia. reflexivity.
Qed.

Lemma Bool_roundtrip value rest :
  ReadBool (WriteBool value [] ++ rest) = Some (value, rest).
Proof. destruct value; reflexivity. Qed.

Lemma size_small bytes :
  Z.of_nat (length bytes) < 2 ^ 31 -> size bytes = Z.of_nat (length bytes).
Proof. intros Hlen. unfold size. apply to_int_small. lia. Qed.

Lemma ByteArray_roundtrip bytes rest :
  ReadByteArray (WriteByteArray bytes [] ++ rest) (Z.of_nat (length bytes))
  = Some (bytes, rest).
Proof.
  unfold ReadByteArray, WriteByteArray. cbn [app].
  rewrite length_app, Nat2Z.id.
  destruct (Z.ltb_spec (Z.of_nat (length bytes)) 0); [lia|].
  destruct (Z.ltb_spec (Z.of_nat (length bytes + length rest))
              (Z.of_nat (length bytes))); [lia|].
  cbn [orb].
  rewrite firstn_app, skipn_app, Nat.sub_diag, firstn_all, skipn_all.
  cbn. rewrite app_nil_r. reflexivity.
Qed.

(** *** The three message types *)

Lemma ReadByteArray_bytes bytes rest :
  is_length bytes ->
  ('(len, iter) ← ReadVarInt (ByteArray_bytes bytes ++ rest);
   ReadByteArray iter len) = Some (bytes, rest).
Proof.
  intros Hlen. unfold ByteArray_bytes, VarInt_bytes. rewrite <- app_assoc.
  unfold is_length in Hlen.
  rewrite VarInt_roundtrip by lia. cbn [mbind option_bind].
  apply (ByteArray_roundtrip bytes rest).
Qed.

(** What is left once a write routine is unfolded: appends to regroup. *)
Ltac flatten_writes :=
  unfold WriteByteArray, WriteBool, WriteVarInt, WriteLong,
    ByteArray_bytes, VarInt_bytes, Bool_bytes, Long_bytes,
    WriteBool, WriteVarInt, WriteLong;
  rewrite ?size_small by assumption;
  cbn [app salt signature];
  rewrite <- ?app_assoc;
  reflexivity.

Lemma SaltSignature_WriteImpl_bytes v container :
  is_length (signature v) ->
  SaltSignature_WriteImpl v container
  = container ++ Long_bytes (salt v) ++ ByteArray_bytes (signature v).
Proof.
  intros Hlen. unfold SaltSignature_WriteImpl. flatten_writes.
Qed.

Lemma SaltSignature_ReadImpl_bytes self salt_ signature_ rest :
  is_long salt_ -> is_length signature_ ->
  SaltSignature_ReadImpl self
    (Long_bytes salt_ ++ ByteArray_bytes signature_ ++ rest)
  = Some (mkSaltSignature salt_ signature_, rest).
Proof.
  intros Hsalt Hlen. unfold SaltSignature_ReadImpl, Long_bytes.
  rewrite Long_roundtrip by exact Hsalt. cbn [mbind option_bind].
  pose proof (ReadByteArray_bytes signature_ rest Hlen) as Harr.
  destruct (ReadVarInt (ByteArray_bytes signature_ ++ rest)) as [[len iter]|];
    cbn [mbind option_bind] in *; [|discriminate].
  rewrite Harr. reflexivity.
Qed.

Lemma ReadImpl_key PROTOCOL_VERSION self key tail :
  is_length key ->
  ServerboundKeyPacket_ReadImpl PROTOCOL_VERSION self (ByteArray_bytes key ++ tail)
  = if 758 <? PROTOCOL_VERSION then
      '(has_nonce, iter) ← ReadBool tail;
      if has_nonce : bool then
        '(nonce_length, iter) ← ReadVarInt iter;
        '(nonce', iter) ← ReadByteArray iter nonce_length;
        Some (mkServerboundKeyPacket key nonce' (salt_signature self), iter)
      else
        '(salt_signature', iter) ← SaltSignature_ReadImpl (salt_signature self) iter;
        Some (mkServerboundKeyPacket key (nonce self) salt_signature', iter)
    else
      '(nonce_length, iter) ← ReadVarInt tail;
      '(nonce', iter) ← ReadByteArray iter nonce_length;
      Some (mkServerboundKeyPacket key nonce' (salt_signature self), iter).
Proof.
  intros Hlen. unfold ServerboundKeyPacket_ReadImpl.
  pose proof (ReadByteArray_bytes key tail Hlen) as Harr.
  destruct (ReadVarInt (ByteArray_bytes key ++ tail)) as [[len iter]|];
    cbn [mbind option_bind] in *; [|discriminate].
  rewrite Harr. reflexivity.
Qed.

Lemma ReadImpl_nonce_body (k : list byte * ReadIterator -> option (ServerboundKeyPacket * ReadIterator)) nonce_ rest :
  is_length nonce_ ->
  ('(nonce_length, iter) ← ReadVarInt (ByteArray_bytes nonce_ ++ rest);
   p ← ReadByteArray iter nonce_length; k p) = k (nonce_, rest).
Proof.
  intros Hlen.
  pose proof (ReadByteArray_bytes nonce_ rest Hlen) as Harr.
  destruct (ReadVarInt (ByteArray_bytes nonce_ ++ rest)) as [[len iter]|];
    cbn [mbind option_bind] in *; [|discriminate].
  rewrite Harr. reflexivity.
Qed.

Lemma ReadImpl_legacy PROTOCOL_VERSION self key nonce_ rest :
  PROTOCOL_VERSION <= 758 -> is_length key -> is_length nonce_ ->
  ServerboundKeyPacket_ReadImpl PROTOCOL_VERSION self
    (ByteArray_bytes key ++ ByteArray_bytes nonce_ ++ rest)
  = Some (mkServerboundKeyPacket key nonce_ (salt_signature self), rest).
Proof.
  intros Hpv Hkey Hnonce. rewrite ReadImpl_key by exact Hkey.
  destruct (Z.ltb_spec 758 PROTOCOL_VERSION); [lia|].
  apply (ReadImpl_nonce_body
           (fun '(nonce', iter) =>
              Some (mkServerboundKeyPacket key nonce' (salt_signature self), iter))).
  exact Hnonce.
Qed.

Lemma ReadImpl_nonce PROTOCOL_VERSION self key nonce_ rest :
  758 < PROTOCOL_VERSION -> is_length key -> is_length nonce_ ->
  ServerboundKeyPacket_ReadImpl PROTOCOL_VERSION self
    (ByteArray_bytes key ++ Bool_bytes true ++ ByteArray_bytes nonce_ ++ rest)
  = Some (mkServerboundKeyPacket key nonce_ (salt_signature self), rest).
Proof.
  intros Hpv Hkey Hnonce. rewrite ReadImpl_key by exact Hkey.
  destruct (Z.ltb_spec 758 PROTOCOL_VERSION); [|lia].
  unfold Bool_bytes. rewrite Bool_roundtrip. cbn [mbind option_bind].
  apply (ReadImpl_nonce_body
           (fun '(nonce', iter) =>
              Some (mkServerboundKeyPacket key nonce' (salt_signature self), iter))).
  exact Hnonce.
Qed.

Lemma ReadImpl_signed PROTOCOL_VERSION self key salt_ signature_ rest :
  758 < PROTOCOL_VERSION -> is_length key ->
  is_long salt_ -> is_length signature_ ->
  ServerboundKeyPacket_ReadImpl PROTOCOL_VERSION self
    (ByteArray_bytes key ++ Bool_bytes false
       ++ Long_bytes salt_ ++ ByteArray_bytes signature_ ++ rest)
  = Some (mkServerboundKeyPacket key (nonce self)
            (mkSaltSignature salt_ signature_), rest).
Proof.
  intros Hpv Hkey Hsalt Hsig. rewrite ReadImpl_key by exact Hkey.
  destruct (Z.ltb_spec 758 PROTOCOL_VERSION); [|lia].
  unfold Bool_bytes. rewrite Bool_roundtrip. cbn [mbind option_bind].
  rewrite SaltSignature_ReadImpl_bytes by assumption.
  reflexivity.
Qed.

Lemma WriteImpl_bytes PROTOCOL_VERSION v :
  ServerboundKeyPacket_value v ->
  ServerboundKeyPacket_WriteImpl PROTOCOL_VERSION v []
  = ByteArray_bytes (key_bytes v)
    ++ (if 758 <? PROTOCOL_VERSION then
          Bool_bytes (empty (signature (salt_signature v)))
          ++ (if empty (signature (salt_signature v))
              then ByteArray_bytes (nonce v)
              else Long_bytes (salt (salt_signature v))
                   ++ ByteArray_bytes (signature (salt_signature v)))
        else ByteArray_bytes (nonce v)).
Proof.
  intros (Hkey & Hnonce & Hsalt & Hsig).
  unfold ServerboundKeyPacket_WriteImpl.
  destruct (758 <? PROTOCOL_VERSION).
  - destruct (empty (signature (salt_signature v))).
    + flatten_writes.
    + rewrite SaltSignature_WriteImpl_bytes by exact Hsig.
      flatten_writes.
  - flatten_writes.
Qed.

Lemma empty_true bytes : empty bytes = true <-> bytes = [].
Proof. destruct bytes; simpl; split; congruence. Qed.

Lemma empty_false bytes : empty bytes = false <-> bytes <> [].
Proof. destruct bytes; simpl; split; congruence. Qed.

(** values -> bytes -> values *)
Lemma SaltSignature_read_write v self rest :
  SaltSignature_value v ->
  SaltSignature_ReadImpl self (SaltSignature_WriteImpl v [] ++ rest)
  = Some (v, rest).
Proof.
  intros [Hsalt Hsig]. rewrite SaltSignature_WriteImpl_bytes by exact Hsig.
  cbn [app]. rewrite <- !app_assoc.
  rewrite SaltSignature_ReadImpl_bytes by assumption.
  destruct v; reflexivity.
Qed.

Lemma SelectTrade_read_write v self rest :
  SelectTrade_value v ->
  SelectTrade_ReadImpl self (SelectTrade_WriteImpl v [] ++ rest)
  = Some (v, rest).
Proof.
  intros Hv. unfold SelectTrade_ReadImpl, SelectTrade_WriteImpl.
  rewrite VarInt_roundtrip by exact Hv. destruct v; reflexivity.
Qed.

Lemma ServerboundKeyPacket_read_write PROTOCOL_VERSION v self rest :
  ServerboundKeyPacket_value v -> fresh self ->
  (758 < PROTOCOL_VERSION -> exactly_one_populated self v) ->
  (PROTOCOL_VERSION <= 758 -> salt_signature v = salt_signature self) ->
  ServerboundKeyPacket_ReadImpl PROTOCOL_VERSION self
    (ServerboundKeyPacket_WriteImpl PROTOCOL_VERSION v [] ++ rest)
  = Some (v, rest).
Proof.
  intros Hv (_ & Hnonce0 & Hsig0) Hmodern Hlegacy.
  rewrite WriteImpl_bytes by exact Hv.
  destruct Hv as (Hkey & Hnonce & Hsalt & Hsig).
  destruct (Z.ltb_spec 758 PROTOCOL_VERSION) as [Hpv|Hpv].
  - destruct (Hmodern Hpv) as [[_ Hss]|[Hn Hs]].
    + assert (He : empty (signature (salt_signature v)) = true).
      { apply empty_true. rewrite Hss. exact Hsig0. }
      rewrite He, <- !app_assoc.
      rewrite ReadImpl_nonce by assumption.
      rewrite <- Hss. destruct v; reflexivity.
    + assert (He : empty (signature (salt_signature v)) = false).
      { apply empty_false. rewrite Hsig0 in Hs. exact Hs. }
      rewrite He, <- !app_assoc.
      rewrite ReadImpl_signed by assumption.
      rewrite <- Hn. destruct v as [k nn [s sg]]; reflexivity.
  - rewrite <- !app_assoc. rewrite ReadImpl_legacy by (assumption || lia).
    rewrite <- (Hlegacy Hpv). destruct v; reflexivity.
Qed.

(** What [WriteImpl] writes is well formed, and is not one of the strings
    with the flag false in front of an empty signature. *)
Lemma WriteImpl_layout PROTOCOL_VERSION v :
  ServerboundKeyPacket_value v ->
  ServerboundKeyPacket_layout PROTOCOL_VERSION
    (ServerboundKeyPacket_WriteImpl PROTOCOL_VERSION v []) false.
Proof.
  intros Hv. rewrite WriteImpl_bytes by exact Hv.
  destruct Hv as (Hkey & Hnonce & Hsalt & Hsig).
  destruct (Z.ltb_spec 758 PROTOCOL_VERSION) as [Hpv|Hpv].
  - destruct (empty (signature (salt_signature v))) eqn:He.
    + apply layout_nonce; assumption.
    + rewrite <- He at 2. apply layout_signed; assumption.
  - apply layout_legacy; assumption.
Qed.

(** bytes -> values -> bytes *)
Lemma SaltSignature_write_read b self :
  SaltSignature_layout b ->
  exists v, SaltSignature_ReadImpl self b = Some (v, [])
            /\ SaltSignature_WriteImpl v [] = b.
Proof.
  intros [salt_ signature_ Hsalt Hsig].
  exists (mkSaltSignature salt_ signature_). split.
  - rewrite <- (app_nil_r (Long_bytes _ ++ _)), <- !app_assoc.
    apply SaltSignature_ReadImpl_bytes; assumption.
  - rewrite SaltSignature_WriteImpl_bytes by exact Hsig. reflexivity.
Qed.

Lemma SelectTrade_write_read b self :
  SelectTrade_layout b ->
  exists v, SelectTrade_ReadImpl self b = Some (v, [])
            /\ SelectTrade_WriteImpl v [] = b.
Proof.
  intros [slot Hslot]. exists (mkSelectTrade slot). split.
  - unfold SelectTrade_ReadImpl, VarInt_bytes.
    rewrite <- (app_nil_r (WriteVarInt slot [])).
    rewrite VarInt_roundtrip by exact Hslot. reflexivity.
  - reflexivity.
Qed.

Lemma ServerboundKeyPacket_write_read PROTOCOL_VERSION b self :
  fresh self ->
  ServerboundKeyPacket_layout PROTOCOL_VERSION b false ->
  exists v, ServerboundKeyPacket_ReadImpl PROTOCOL_VERSION self b = Some (v, [])
            /\ ServerboundKeyPacket_WriteImpl PROTOCOL_VERSION v [] = b.
Proof.
  intros (_ & Hnonce0 & Hsig0) Hb.
  remember false as e eqn:He.
  destruct Hb as [key nonce_ Hpv Hkey Hnonce|key nonce_ Hpv Hkey Hnonce
                  |key salt_ signature_ Hpv Hkey Hsalt Hsig].
  - exists (mkServerboundKeyPacket key nonce_ (salt_signature self)). split.
    + rewrite <- (app_nil_r (ByteArray_bytes key ++ _)), <- !app_assoc.
      apply ReadImpl_legacy; assumption.
    + unfold ServerboundKeyPacket_WriteImpl. cbn [key_bytes nonce].
      destruct (Z.ltb_spec 758 PROTOCOL_VERSION); [lia|].
      flatten_writes.
  - exists (mkServerboundKeyPacket key nonce_ (salt_signature self)). split.
    + rewrite <- (app_nil_r (ByteArray_bytes key ++ _)), <- !app_assoc.
      apply ReadImpl_nonce; assumption.
    + unfold ServerboundKeyPacket_WriteImpl.
      cbn [key_bytes nonce salt_signature].
      destruct (Z.ltb_spec 758 PROTOCOL_VERSION); [|lia].
      rewrite Hsig0. cbn [empty].
      flatten_writes.
  - exists (mkServerboundKeyPacket key (nonce self)
              (mkSaltSignature salt_ signature_)). split.
    + rewrite <- (app_nil_r (ByteArray_bytes key ++ _)), <- !app_assoc.
      apply ReadImpl_signed; assumption.
    + unfold ServerboundKeyPacket_WriteImpl.
      cbn [key_bytes nonce salt_signature signature].
      destruct (Z.ltb_spec 758 PROTOCOL_VERSION); [|lia].
      rewrite He.
      rewrite SaltSignature_WriteImpl_bytes by exact Hsig.
      flatten_writes.
Qed.


(** *** The flag of the key packet *)

Lemma SaltSignature_WriteImpl_app v container :
  SaltSignature_WriteImpl v container
  = container ++ SaltSignature_WriteImpl v [].
Proof.
  unfold SaltSignature_WriteImpl. flatten_writes.
Qed.

(** C2. For a protocol version above 758, the bytes [WriteImpl] produces
    are the key behind its length, then the flag, then the body, and the
    flag says which body it is: true with the nonce behind its VarInt
    length, false with the embedded SaltSignature.  At protocol 760 the
    packet with key bytes 01 02, nonce AA and no signature is written as
    02 01 02 01 01 AA. *)
Theorem ServerboundKeyPacket_flag_matches_body :
  (forall PROTOCOL_VERSION v,
     758 < PROTOCOL_VERSION ->
     exists has_nonce : bool,
       ServerboundKeyPacket_WriteImpl PROTOCOL_VERSION v []
       = (WriteVarInt (size (key_bytes v)) [] ++ key_bytes v)
         ++ WriteBool has_nonce []
         ++ (if has_nonce
             then WriteVarInt (size (nonce v)) [] ++ nonce v
             else SaltSignature_WriteImpl (salt_signature v) []))
  /\ (forall salt_,
        ServerboundKeyPacket_WriteImpl 760
          (mkServerboundKeyPacket [Byte.x01; Byte.x02] [Byte.xaa]
             (mkSaltSignature salt_ [])) []
        = [Byte.x02; Byte.x01; Byte.x02; Byte.x01; Byte.x01; Byte.xaa]).
Proof.
  split.
  - intros PROTOCOL_VERSION v Hpv.
    exists (empty (signature (salt_signature v))).
    unfold ServerboundKeyPacket_WriteImpl.
    destruct (Z.ltb_spec 758 PROTOCOL_VERSION); [|lia].
    destruct (empty (signature (salt_signature v))).
    + flatten_writes.
    + rewrite SaltSignature_WriteImpl_app.
      flatten_writes.
  - intros salt_. reflexivity.
Qed.

Lemma ServerboundKeyPacket_flag_matches_body_witness :
  exists has_nonce : bool,
    ServerboundKeyPacket_WriteImpl 760
      (mkServerboundKeyPacket [Byte.x01; Byte.x02] []
         (mkSaltSignature 5 [Byte.xde; Byte.xad])) []
    = (WriteVarInt 2 [] ++ [Byte.x01; Byte.x02])
      ++ WriteBool has_nonce []
      ++ (if has_nonce
          then WriteVarInt 0 [] ++ []
          else SaltSignature_WriteImpl
                 (mkSaltSignature 5 [Byte.xde; Byte.xad]) []).
Proof.
  apply (proj1 ServerboundKeyPacket_flag_matches_body 760
           (mkServerboundKeyPacket [Byte.x01; Byte.x02] []
              (mkSaltSignature 5 [Byte.xde; Byte.xad]))).
  lia.
Defined.

(** The specification's scenario for SaltSignature. *)
Example SaltSignature_bytes :
  SaltSignature_WriteImpl
    (mkSaltSignature 0x0102030405060708 [Byte.xde; Byte.xad]) []
  = [Byte.x01; Byte.x02; Byte.x03; Byte.x04;
     Byte.x05; Byte.x06; Byte.x07; Byte.x08;
     Byte.x02; Byte.xde; Byte.xad].
Proof. reflexivity. Qed.

(** VarInt at its boundaries: the minimal number of bytes, and the value
    read back. *)
Example VarInt_boundaries :
  map (fun v => length (VarInt_bytes v))
      [0; 127; 128; 16383; 2097151; 268435455; -1]
  = [1; 1; 2; 2; 3; 4; 5]%nat
  /\ map (fun v => ReadVarInt (VarInt_bytes v))
         [0; 127; 128; 16383; 2097151; 268435455; -1]
     = map (fun v => Some (v, []))
         [0; 127; 128; 16383; 2097151; 268435455; -1].
Proof. split; reflexivity. Qed.

(** *** Round trips *)

(** C6, amended. For the values of the three types whose integers fit
    their C++ types and whose vectors fit a VarInt length (for
    ServerboundKeyPacket above protocol 758: exactly one of nonce and salt
    signature populated, the other as in the fresh packet that is read
    into), reading the bytes that [WriteImpl] wrote gives the value back;
    and for every well-formed byte string of SaltSignature and of
    SelectTrade, and every well-formed byte string of ServerboundKeyPacket
    other than those whose flag is false in front of an empty signature,
    writing the value read from it gives the same bytes. *)
Theorem codec_roundtrip :
  (forall v self rest,
     SaltSignature_value v ->
     SaltSignature_ReadImpl self (SaltSignature_WriteImpl v [] ++ rest)
     = Some (v, rest))
  /\ (forall v self rest,
        SelectTrade_value v ->
        SelectTrade_ReadImpl self (SelectTrade_WriteImpl v [] ++ rest)
        = Some (v, rest))
  /\ (forall PROTOCOL_VERSION v self rest,
        ServerboundKeyPacket_value v -> fresh self ->
        (758 < PROTOCOL_VERSION -> exactly_one_populated self v) ->
        (PROTOCOL_VERSION <= 758 -> salt_signature v = salt_signature self) ->
        ServerboundKeyPacket_ReadImpl PROTOCOL_VERSION self
          (ServerboundKeyPacket_WriteImpl PROTOCOL_VERSION v [] ++ rest)
        = Some (v, rest))
  /\ (forall b self,
        SaltSignature_layout b ->
        exists v, SaltSignature_ReadImpl self b = Some (v, [])
                  /\ SaltSignature_WriteImpl v [] = b)
  /\ (forall b self,
        SelectTrade_layout b ->
        exists v, SelectTrade_ReadImpl self b = Some (v, [])
                  /\ SelectTrade_WriteImpl v [] = b)
  /\ (forall PROTOCOL_VERSION b self,
        fresh self ->
        ServerboundKeyPacket_layout PROTOCOL_VERSION b false ->
        exists v,
          ServerboundKeyPacket_ReadImpl PROTOCOL_VERSION self b = Some (v, [])
          /\ ServerboundKeyPacket_WriteImpl PROTOCOL_VERSION v [] = b).
Proof.
  repeat split.
  - intros. apply SaltSignature_read_write; assumption.
  - intros. apply SelectTrade_read_write; assumption.
  - intros. apply ServerboundKeyPacket_read_write; assumption.
  - intros. apply SaltSignature_write_read; assumption.
  - intros. apply SelectTrade_write_read; assumption.
  - intros. apply ServerboundKeyPacket_write_read; assumption.
Qed.

Lemma fresh_new indeterminate : fresh (ServerboundKeyPacket_new indeterminate).
Proof. repeat split. Qed.

Lemma codec_roundtrip_witness :
  SaltSignature_ReadImpl (mkSaltSignature 0 [])
    (SaltSignature_WriteImpl
       (mkSaltSignature 0x0102030405060708 [Byte.xde; Byte.xad]) [] ++ [])
  = Some (mkSaltSignature 0x0102030405060708 [Byte.xde; Byte.xad], [])
  /\ SelectTrade_ReadImpl (mkSelectTrade 0)
       (SelectTrade_WriteImpl (mkSelectTrade (-1)) [] ++ [])
     = Some (mkSelectTrade (-1), [])
  /\ ServerboundKeyPacket_ReadImpl 760 (ServerboundKeyPacket_new 0)
       (ServerboundKeyPacket_WriteImpl 760
          (mkServerboundKeyPacket [Byte.x01; Byte.x02] [Byte.xaa]
             (mkSaltSignature 0 [])) [] ++ [])
     = Some (mkServerboundKeyPacket [Byte.x01; Byte.x02] [Byte.xaa]
               (mkSaltSignature 0 []), [])
  /\ (exists v,
        SaltSignature_ReadImpl (mkSaltSignature 0 [])
          (Long_bytes 5 ++ ByteArray_bytes [Byte.xde]) = Some (v, [])
        /\ SaltSignature_WriteImpl v []
           = Long_bytes 5 ++ ByteArray_bytes [Byte.xde])
  /\ (exists v,
        SelectTrade_ReadImpl (mkSelectTrade 0) (VarInt_bytes 300)
        = Some (v, [])
        /\ SelectTrade_WriteImpl v [] = VarInt_bytes 300)
  /\ (exists v,
        ServerboundKeyPacket_ReadImpl 760 (ServerboundKeyPacket_new 0)
          (ByteArray_bytes [Byte.x01] ++ Bool_bytes false
             ++ Long_bytes 5 ++ ByteArray_bytes [Byte.xde])
        = Some (v, [])
        /\ ServerboundKeyPacket_WriteImpl 760 v []
           = ByteArray_bytes [Byte.x01] ++ Bool_bytes false
               ++ Long_bytes 5 ++ ByteArray_bytes [Byte.xde]).
Proof.
  destruct codec_roundtrip as (H1 & H2 & H3 & H4 & H5 & H6).
  repeat apply conj.
  - apply H1. split; [unfold is_long|unfold is_length]; simpl; lia.
  - apply H2. unfold SelectTrade_value, is_int. simpl. lia.
  - apply H3.
    + repeat split; unfold is_length, is_long; simpl; lia.
    + apply fresh_new.
    + intros _. left. split; [discriminate|reflexivity].
    + intros Hpv. lia.
  - apply H4. apply layout_salt_signature.
    + unfold is_long. lia.
    + unfold is_length. simpl. lia.
  - apply H5. apply layout_select_trade. unfold is_int. lia.
  - apply H6; [apply fresh_new|].
    apply (layout_signed 760 [Byte.x01] 5 [Byte.xde]).
    + lia.
    + unfold is_length. simpl. lia.
    + unfold is_long. lia.
    + unfold is_length. simpl. lia.
Defined.

(** C6, as stated, fails: at protocol 760 the eleven bytes 00, 00, eight
    times 00, 00 (no key, flag false, salt 0, signature of length 0) are
    well formed; read into a fresh packet and written again, they come
    back as the three bytes 00 01 00. *)
Lemma ServerboundKeyPacket_rewrite_differs :
  (exists e, ServerboundKeyPacket_layout 760 unsigned_key_exchange e) /\
  forall indeterminate, exists v,
    ServerboundKeyPacket_ReadImpl 760 (ServerboundKeyPacket_new indeterminate)
      unsigned_key_exchange = Some (v, [])
    /\ ServerboundKeyPacket_WriteImpl 760 v []
       = [Byte.x00; Byte.x01; Byte.x00]
    /\ ServerboundKeyPacket_WriteImpl 760 v [] <> unsigned_key_exchange.
Proof.
  split.
  - exists true.
    apply (layout_signed 760 [] 0 []); unfold is_length, is_long; simpl; lia.
  - intros indeterminate. eexists. split; [reflexivity|].
    split; [reflexivity|discriminate].
Qed.

(** *** What a write adds and what it leaves out *)

(** X19. The three write routines only append: the bytes already in the
    container stay in front, unchanged, and what is added does not depend
    on them. *)
Theorem WriteImpl_appends container :
  (forall v, SaltSignature_WriteImpl v container
             = container ++ SaltSignature_WriteImpl v [])
  /\ (forall v, SelectTrade_WriteImpl v container
                = container ++ SelectTrade_WriteImpl v [])
  /\ (forall PROTOCOL_VERSION v,
        ServerboundKeyPacket_WriteImpl PROTOCOL_VERSION v container
        = container ++ ServerboundKeyPacket_WriteImpl PROTOCOL_VERSION v []).
Proof.
  split; [|split].
  - intros v. apply SaltSignature_WriteImpl_app.
  - intros v. reflexivity.
  - intros PROTOCOL_VERSION v. unfold ServerboundKeyPacket_WriteImpl.
    destruct (758 <? PROTOCOL_VERSION).
    + destruct (empty (signature (salt_signature v))).
      * flatten_writes.
      * rewrite SaltSignature_WriteImpl_app.
        rewrite (SaltSignature_WriteImpl_app _ (WriteBool _ _)).
        flatten_writes.
    + flatten_writes.
Qed.

(** X20. Above protocol 758 a key packet is written with its nonce or with
    its salt signature, never with both: when the signature has bytes the
    nonce is not written (two packets that differ in the nonce only are
    written alike), and when it has none the salt is not written.  Up to
    protocol 758 the salt signature is not written at all. *)
Theorem ServerboundKeyPacket_WriteImpl_drops PROTOCOL_VERSION
    key nonce1 nonce2 salt1 salt2 sig1 sig2 container :
  (758 < PROTOCOL_VERSION -> sig1 <> [] ->
   ServerboundKeyPacket_WriteImpl PROTOCOL_VERSION
     (mkServerboundKeyPacket key nonce1 (mkSaltSignature salt1 sig1)) container
   = ServerboundKeyPacket_WriteImpl PROTOCOL_VERSION
       (mkServerboundKeyPacket key nonce2 (mkSaltSignature salt1 sig1))
       container)
  /\ (758 < PROTOCOL_VERSION ->
      ServerboundKeyPacket_WriteImpl PROTOCOL_VERSION
        (mkServerboundKeyPacket key nonce1 (mkSaltSignature salt1 [])) container
      = ServerboundKeyPacket_WriteImpl PROTOCOL_VERSION
          (mkServerboundKeyPacket key nonce1 (mkSaltSignature salt2 []))
          container)
  /\ (PROTOCOL_VERSION <= 758 ->
      ServerboundKeyPacket_WriteImpl PROTOCOL_VERSION
        (mkServerboundKeyPacket key nonce1 (mkSaltSignature salt1 sig1))
        container
      = ServerboundKeyPacket_WriteImpl PROTOCOL_VERSION
          (mkServerboundKeyPacket key nonce1 (mkSaltSignature salt2 sig2))
          container).
Proof.
  unfold ServerboundKeyPacket_WriteImpl. cbn [key_bytes nonce salt_signature signature].
  split; [|split].
  - intros Hpv Hsig. destruct (Z.ltb_spec 758 PROTOCOL_VERSION); [|lia].
    destruct sig1; [contradiction|]. reflexivity.
  - intros Hpv. destruct (Z.ltb_spec 758 PROTOCOL_VERSION); [|lia].
    reflexivity.
  - intros Hpv. destruct (Z.ltb_spec 758 PROTOCOL_VERSION); [lia|].
    reflexivity.
Qed.

(** X21. Different values have different bytes: two SaltSignatures (or two
    SelectTrades) whose fields fit their types and that are written alike
    are equal. *)
Theorem WriteImpl_injective :
  (forall v1 v2,
     SaltSignature_value v1 -> SaltSignature_value v2 ->
     SaltSignature_WriteImpl v1 [] = SaltSignature_WriteImpl v2 [] ->
     v1 = v2)
  /\ (forall v1 v2,
        SelectTrade_value v1 -> SelectTrade_value v2 ->
        SelectTrade_WriteImpl v1 [] = SelectTrade_WriteImpl v2 [] ->
        v1 = v2).
Proof.
  split; intros v1 v2 H1 H2 Hbytes.
  - pose proof (SaltSignature_read_write v1 v1 [] H1) as R1.
    pose proof (SaltSignature_read_write v2 v1 [] H2) as R2.
    rewrite Hbytes in R1. congruence.
  - pose proof (SelectTrade_read_write v1 v1 [] H1) as R1.
    pose proof (SelectTrade_read_write v2 v1 [] H2) as R2.
    rewrite Hbytes in R1. congruence.
Qed.

(** *** What a read consumes *)

Lemma ReadVarInt_loop_consumes fuel : forall shift result iter x rest,
  ReadVarInt_loop fuel shift result iter = Some (x, rest) ->
  exists consumed, iter = consumed ++ rest
                   /\ (1 <= length consumed <= fuel)%nat.
Proof.
  induction fuel as [|fuel IH]; intros shift result iter x rest;
    [discriminate|].
  cbn [ReadVarInt_loop]. destruct iter as [|b iter]; [discriminate|].
  destruct (Z.land (byte.unsigned b) 128 =? 0).
  - intros [= _ <-]. exists [b]. split; [reflexivity|simpl; lia].
  - intros Hrec. destruct (IH _ _ _ _ _ Hrec) as (c & -> & Hc).
    exists (b :: c). split; [reflexivity|simpl; lia].
Qed.

Lemma ReadBigEndian_consumes nbytes : forall acc iter x rest,
  ReadBigEndian nbytes acc iter = Some (x, rest) ->
  exists consumed, iter = consumed ++ rest /\ length consumed = nbytes.
Proof.
  induction nbytes as [|k IH]; intros acc iter x rest.
  - intros [= _ <-]. exists []. split; reflexivity.
  - cbn [ReadBigEndian]. destruct iter as [|b iter]; [discriminate|].
    intros Hrec. destruct (IH _ _ _ _ Hrec) as (c & -> & Hc).
    exists (b :: c). split; [reflexivity|simpl; lia].
Qed.

Lemma ReadByteArray_consumes iter desired_length bytes rest :
  ReadByteArray iter desired_length = Some (bytes, rest) ->
  iter = bytes ++ rest /\ Z.of_nat (length bytes) = desired_length.
Proof.
  unfold ReadByteArray.
  destruct (Z.ltb_spec desired_length 0); [discriminate|].
  destruct (Z.ltb_spec (Z.of_nat (length iter)) desired_length);
    [discriminate|].
  cbn [orb]. intros [= <- <-]. split.
  - symmetry. apply firstn_skipn.
  - rewrite length_firstn. lia.
Qed.

Lemma ReadArray_consumes iter bytes rest :
  ('(len, iter') ← ReadVarInt iter; ReadByteArray iter' len)
  = Some (bytes, rest) ->
  exists consumed, iter = consumed ++ rest
    /\ (1 + length bytes <= length consumed <= 5 + length bytes)%nat.
Proof.
  destruct (ReadVarInt iter) as [[len iter']|] eqn:Hlen;
    cbn [mbind option_bind]; [|discriminate].
  intros Harr.
  destruct (ReadVarInt_loop_consumes _ _ _ _ _ _ Hlen) as (c & -> & Hc).
  destruct (ReadByteArray_consumes _ _ _ _ Harr) as [-> _].
  exists (c ++ bytes). rewrite <- app_assoc. split; [reflexivity|].
  rewrite length_app. lia.
Qed.

Lemma SaltSignature_ReadImpl_consumes self iter v rest :
  SaltSignature_ReadImpl self iter = Some (v, rest) ->
  exists consumed, iter = consumed ++ rest
    /\ (9 + length (signature v) <= length consumed
        <= 13 + length (signature v))%nat.
Proof.
  unfold SaltSignature_ReadImpl, ReadLong.
  destruct (ReadBigEndian 8 0 iter) as [[u iter1]|] eqn:Hsalt;
    cbn [mbind option_bind]; [|discriminate].
  destruct (ReadBigEndian_consumes _ _ _ _ _ Hsalt) as (c1 & -> & Hc1).
  destruct (ReadVarInt iter1) as [[len iter2]|] eqn:Hlen;
    cbn [mbind option_bind]; [|discriminate].
  destruct (ReadByteArray iter2 len) as [[bytes iter3]|] eqn:Harr;
    cbn [mbind option_bind]; [|discriminate].
  intros [= <- <-]. cbn [signature].
  destruct (ReadArray_consumes iter1 bytes iter3) as (c2 & -> & Hc2).
  { rewrite Hlen. cbn [mbind option_bind]. exact Harr. }
  exists (c1 ++ c2). rewrite <- app_assoc. split; [reflexivity|].
  rewrite length_app. lia.
Qed.

(** X22. A read that succeeds has consumed a prefix of the input and
    returns the bytes behind it untouched: 9 to 13 bytes and the signature
    for a SaltSignature, 1 to 5 bytes for a SelectTrade, at least 2 bytes
    and the key for a ServerboundKeyPacket.  So no read succeeds on an
    empty input. *)
Theorem ReadImpl_consumes :
  (forall self iter v rest,
     SaltSignature_ReadImpl self iter = Some (v, rest) ->
     exists consumed, iter = consumed ++ rest
       /\ (9 + length (signature v) <= length consumed
           <= 13 + length (signature v))%nat)
  /\ (forall self iter v rest,
        SelectTrade_ReadImpl self iter = Some (v, rest) ->
        exists consumed, iter = consumed ++ rest
                         /\ (1 <= length consumed <= 5)%nat)
  /\ (forall PROTOCOL_VERSION self iter v rest,
        ServerboundKeyPacket_ReadImpl PROTOCOL_VERSION self iter
        = Some (v, rest) ->
        exists consumed, iter = consumed ++ rest
          /\ (2 + length (key_bytes v) <= length consumed)%nat).
Proof.
  split; [|split].
  - apply SaltSignature_ReadImpl_consumes.
  - intros self iter v rest. unfold SelectTrade_ReadImpl.
    destruct (ReadVarInt iter) as [[x iter']|] eqn:Hx;
      cbn [mbind option_bind]; [|discriminate].
    intros [= _ <-]. exact (ReadVarInt_loop_consumes _ _ _ _ _ _ Hx).
  - intros PROTOCOL_VERSION self iter v rest.
    unfold ServerboundKeyPacket_ReadImpl.
    destruct (ReadVarInt iter) as [[len iter1]|] eqn:Hlen;
      cbn [mbind option_bind]; [|discriminate].
    destruct (ReadByteArray iter1 len) as [[key iter2]|] eqn:Hkey;
      cbn [mbind option_bind]; [|discriminate].
    destruct (ReadArray_consumes iter key iter2) as (c1 & -> & Hc1).
    { rewrite Hlen. cbn [mbind option_bind]. exact Hkey. }
    assert (Hnonce : forall self' : SaltSignature,
      ('(nonce_length, it1) ← ReadVarInt iter2;
       '(nonce', it2) ← ReadByteArray it1 nonce_length;
       Some (mkServerboundKeyPacket key nonce' self', it2))
      = Some (v, rest) ->
      exists consumed, c1 ++ iter2 = consumed ++ rest
        /\ (2 + length (key_bytes v) <= length consumed)%nat).
    { intros self'.
      destruct (ReadVarInt iter2) as [[nlen it1]|] eqn:Hnlen;
        cbn [mbind option_bind]; [|discriminate].
      destruct (ReadByteArray it1 nlen) as [[nonce' it2]|] eqn:Hn;
        cbn [mbind option_bind]; [|discriminate].
      intros [= <- <-]. cbn [key_bytes].
      destruct (ReadArray_consumes iter2 nonce' it2) as (c2 & -> & Hc2).
      { rewrite Hnlen. cbn [mbind option_bind]. exact Hn. }
      exists (c1 ++ c2). rewrite <- app_assoc. split; [reflexivity|].
      rewrite length_app. lia. }
    destruct (758 <? PROTOCOL_VERSION); [|apply Hnonce].
    destruct iter2 as [|flag iter3]; cbn [ReadBool mbind option_bind];
      [discriminate|].
    destruct (negb (byte.unsigned flag =? 0)).
    + destruct (ReadVarInt iter3) as [[nlen it1]|] eqn:Hnlen;
        cbn [mbind option_bind]; [|discriminate].
      destruct (ReadByteArray it1 nlen) as [[nonce' it2]|] eqn:Hn;
        cbn [mbind option_bind]; [|discriminate].
      intros [= <- <-]. cbn [key_bytes].
      destruct (ReadArray_consumes iter3 nonce' it2) as (c2 & -> & Hc2).
      { rewrite Hnlen. cbn [mbind option_bind]. exact Hn. }
      exists (c1 ++ flag :: c2). rewrite <- app_assoc. split; [reflexivity|].
      rewrite length_app. simpl. lia.
    + destruct (SaltSignature_ReadImpl (salt_signature self) iter3)
        as [[ss it1]|] eqn:Hss; cbn [mbind option_bind]; [|discriminate].
      intros [= <- <-]. cbn [key_bytes].
      destruct (SaltSignature_ReadImpl_consumes _ _ _ _ Hss) as (c2 & -> & Hc2).
      exists (c1 ++ flag :: c2). rewrite <- app_assoc. split; [reflexivity|].
      rewrite length_app. simpl. lia.
Qed.

(** X23. A read of a key packet that succeeds has assigned the key and
    either the nonce or the salt signature, never both: one of the two is
    what the packet held before the read.  Up to protocol 758 it is the
    salt signature that is never assigned. *)
Theorem ServerboundKeyPacket_ReadImpl_keeps PROTOCOL_VERSION self iter v rest :
  ServerboundKeyPacket_ReadImpl PROTOCOL_VERSION self iter = Some (v, rest) ->
  (salt_signature v = salt_signature self \/ nonce v = nonce self)
  /\ (PROTOCOL_VERSION <= 758 -> salt_signature v = salt_signature self).
Proof.
  unfold ServerboundKeyPacket_ReadImpl.
  destruct (ReadVarInt iter) as [[len iter1]|];
    cbn [mbind option_bind]; [|discriminate].
  destruct (ReadByteArray iter1 len) as [[key iter2]|];
    cbn [mbind option_bind]; [|discriminate].
  destruct (Z.ltb_spec 758 PROTOCOL_VERSION) as [Hpv|Hpv].
  - destruct (ReadBool iter2) as [[[] iter3]|];
      cbn [mbind option_bind]; [| |discriminate].
    + destruct (ReadVarInt iter3) as [[nlen it1]|];
        cbn [mbind option_bind]; [|discriminate].
      destruct (ReadByteArray it1 nlen) as [[nonce' it2]|];
        cbn [mbind option_bind]; [|discriminate].
      intros [= <- _]. split; [left; reflexivity|lia].
    + destruct (SaltSignature_ReadImpl (salt_signature self) iter3)
        as [[ss it1]|]; cbn [mbind option_bind]; [|discriminate].
      intros [= <- _]. split; [right; reflexivity|lia].
  - destruct (ReadVarInt iter2) as [[nlen it1]|];
      cbn [mbind option_bind]; [|discriminate].
    destruct (ReadByteArray it1 nlen) as [[nonce' it2]|];
      cbn [mbind option_bind]; [|discriminate].
    intros [= <- _]. split; [left; reflexivity|reflexivity].
Qed.

(** X24. A packet object read into twice: above protocol 758, when a packet
    that holds a signature with bytes reads the bytes of a packet with a
    nonce, the read succeeds and assigns the nonce, but writing the packet
    then gives the flag false and the old salt signature, not the bytes
    read. *)
Theorem ServerboundKeyPacket_stale_signature PROTOCOL_VERSION self key nonce_ :
  758 < PROTOCOL_VERSION ->
  is_length key -> is_length nonce_ ->
  SaltSignature_value (salt_signature self) ->
  signature (salt_signature self) <> [] ->
  exists v,
    ServerboundKeyPacket_ReadImpl PROTOCOL_VERSION self
      (ByteArray_bytes key ++ Bool_bytes true ++ ByteArray_bytes nonce_)
    = Some (v, [])
    /\ nonce v = nonce_
    /\ ServerboundKeyPacket_WriteImpl PROTOCOL_VERSION v []
       = ByteArray_bytes key ++ Bool_bytes false
           ++ SaltSignature_WriteImpl (salt_signature self) [].
Proof.
  intros Hpv Hkey Hnonce [Hsalt Hsig] Hne.
  exists (mkServerboundKeyPacket key nonce_ (salt_signature self)).
  split; [|split].
  - rewrite <- (app_nil_r (ByteArray_bytes key ++ _)), <- !app_assoc.
    apply ReadImpl_nonce; assumption.
  - reflexivity.
  - rewrite WriteImpl_bytes
      by (split; [exact Hkey|split; [exact Hnonce|split; [exact Hsalt|exact Hsig]]]).
    cbn [key_bytes nonce salt_signature].
    destruct (Z.ltb_spec 758 PROTOCOL_VERSION); [|lia].
    apply empty_false in Hne. rewrite Hne.
    rewrite SaltSignature_WriteImpl_bytes by exact Hsig. reflexivity.
Qed.

(** *** Packet ids *)

Lemma SelectTrade_GetId_Some v id :
  SelectTrade_GetId v = Some id ->
  (393 <= v <= 404 /\ id = 0x1F)
  \/ (477 <= v <= 578 /\ id = 0x21)
  \/ (735 <= v <= 736 /\ id = 0x22).
Proof.
  unfold SelectTrade_GetId.
  repeat match goal with
         | |- context [v =? ?b] =>
             destruct (Z.eqb_spec v b) as [->|?];
             [simpl; intros [= <-]; lia|]
         end.
  simpl. discriminate.
Qed.

(** X25. [SelectTrade::GetId] gives an id for protocol versions between
    393 and 736 only (those of 1.13 to 1.16 that the source lists); the id
    is 0x1F, 0x21 or 0x22, and for two versions that have one it does not
    decrease when the version grows. *)
Theorem SelectTrade_GetId_monotone v1 v2 id1 id2 :
  SelectTrade_GetId v1 = Some id1 ->
  SelectTrade_GetId v2 = Some id2 ->
  (393 <= v1 <= 736 /\ (id1 = 0x1F \/ id1 = 0x21 \/ id1 = 0x22))
  /\ (v1 <= v2 -> id1 <= id2).
Proof.
  intros H1 H2.
  apply SelectTrade_GetId_Some in H1. apply SelectTrade_GetId_Some in H2.
  lia.
Qed.

(** *** The added properties, on sample packets *)

Lemma ServerboundKeyPacket_WriteImpl_drops_witness :
  ServerboundKeyPacket_WriteImpl 760
    (mkServerboundKeyPacket [Byte.x01] [Byte.xaa]
       (mkSaltSignature 5 [Byte.xde])) []
  = ServerboundKeyPacket_WriteImpl 760
      (mkServerboundKeyPacket [Byte.x01] [Byte.xbb; Byte.xcc]
         (mkSaltSignature 5 [Byte.xde])) []
  /\ ServerboundKeyPacket_WriteImpl 760
       (mkServerboundKeyPacket [Byte.x01] [Byte.xaa] (mkSaltSignature 5 []))
       []
     = ServerboundKeyPacket_WriteImpl 760
         (mkServerboundKeyPacket [Byte.x01] [Byte.xaa] (mkSaltSignature 6 []))
         []
  /\ ServerboundKeyPacket_WriteImpl 758
       (mkServerboundKeyPacket [Byte.x01] [Byte.xaa]
          (mkSaltSignature 5 [Byte.xde])) []
     = ServerboundKeyPacket_WriteImpl 758
         (mkServerboundKeyPacket [Byte.x01] [Byte.xaa] (mkSaltSignature 6 []))
         [].
Proof.
  split; [|split].
  - apply (proj1 (ServerboundKeyPacket_WriteImpl_drops 760 [Byte.x01]
                    [Byte.xaa] [Byte.xbb; Byte.xcc] 5 5 [Byte.xde] [] []));
      [lia|discriminate].
  - apply (proj1 (proj2 (ServerboundKeyPacket_WriteImpl_drops 760 [Byte.x01]
                           [Byte.xaa] [] 5 6 [] [] []))).
    lia.
  - apply (proj2 (proj2 (ServerboundKeyPacket_WriteImpl_drops 758 [Byte.x01]
                           [Byte.xaa] [] 5 6 [Byte.xde] [] []))).
    lia.
Defined.

Lemma WriteImpl_injective_witness :
  mkSaltSignature 5 [Byte.xde] = mkSaltSignature 5 [Byte.xde]
  /\ mkSelectTrade 300 = mkSelectTrade 300.
Proof.
  split.
  - apply (proj1 WriteImpl_injective (mkSaltSignature 5 [Byte.xde])
             (mkSaltSignature 5 [Byte.xde])).
    + split; [unfold is_long|unfold is_length]; simpl; lia.
    + split; [unfold is_long|unfold is_length]; simpl; lia.
    + reflexivity.
  - apply (proj2 WriteImpl_injective (mkSelectTrade 300) (mkSelectTrade 300)).
    + unfold SelectTrade_value, is_int. simpl. lia.
    + unfold SelectTrade_value, is_int. simpl. lia.
    + reflexivity.
Defined.

Lemma ReadImpl_consumes_witness :
  (exists consumed,
     SaltSignature_WriteImpl (mkSaltSignature 5 [Byte.xde]) [] ++ [Byte.xff]
     = consumed ++ [Byte.xff]
     /\ (9 + 1 <= length consumed <= 13 + 1)%nat)
  /\ (exists consumed,
        [Byte.xac; Byte.x02; Byte.xff] = consumed ++ [Byte.xff]
        /\ (1 <= length consumed <= 5)%nat)
  /\ (exists consumed,
        unsigned_key_exchange = consumed ++ []
        /\ (2 + 0 <= length consumed)%nat).
Proof.
  destruct ReadImpl_consumes as (Hsalt & Htrade & Hkey).
  split; [|split].
  - apply (Hsalt (mkSaltSignature 0 []) _ (mkSaltSignature 5 [Byte.xde])).
    reflexivity.
  - apply (Htrade (mkSelectTrade 0) _ (mkSelectTrade 300)). reflexivity.
  - apply (Hkey 760 (ServerboundKeyPacket_new 0) _
             (mkServerboundKeyPacket [] [] (mkSaltSignature 0 []))).
    reflexivity.
Defined.

Lemma ServerboundKeyPacket_ReadImpl_keeps_witness :
  (salt_signature (mkServerboundKeyPacket [] [Byte.xaa] (mkSaltSignature 0 []))
   = salt_signature (mkServerboundKeyPacket [] [Byte.xaa]
                       (mkSaltSignature 7 [Byte.xde]))
   \/ nonce (mkServerboundKeyPacket [] [Byte.xaa] (mkSaltSignature 0 []))
      = nonce (mkServerboundKeyPacket [] [Byte.xaa]
                 (mkSaltSignature 7 [Byte.xde])))
  /\ (760 <= 758 ->
      salt_signature (mkServerboundKeyPacket [] [Byte.xaa]
                        (mkSaltSignature 0 []))
      = salt_signature (mkServerboundKeyPacket [] [Byte.xaa]
                          (mkSaltSignature 7 [Byte.xde]))).
Proof.
  apply (ServerboundKeyPacket_ReadImpl_keeps 760
           (mkServerboundKeyPacket [] [Byte.xaa] (mkSaltSignature 7 [Byte.xde]))
           unsigned_key_exchange
           (mkServerboundKeyPacket [] [Byte.xaa] (mkSaltSignature 0 []))
           []).
  reflexivity.
Defined.

Lemma ServerboundKeyPacket_stale_signature_witness :
  exists v,
    ServerboundKeyPacket_ReadImpl 760
      (mkServerboundKeyPacket [] [] (mkSaltSignature 5 [Byte.xde]))
      (ByteArray_bytes [Byte.x01] ++ Bool_bytes true
         ++ ByteArray_bytes [Byte.xaa])
    = Some (v, [])
    /\ nonce v = [Byte.xaa]
    /\ ServerboundKeyPacket_WriteImpl 760 v []
       = ByteArray_bytes [Byte.x01] ++ Bool_bytes false
           ++ SaltSignature_WriteImpl (mkSaltSignature 5 [Byte.xde]) [].
Proof.
  apply (ServerboundKeyPacket_stale_signature 760
           (mkServerboundKeyPacket [] [] (mkSaltSignature 5 [Byte.xde]))
           [Byte.x01] [Byte.xaa]).
  - lia.
  - unfold is_length. simpl. lia.
  - unfold is_length. simpl. lia.
  - split; [unfold is_long|unfold is_length]; simpl; lia.
  - discriminate.
Defined.

Lemma SelectTrade_GetId_monotone_witness :
  (393 <= 404 <= 736 /\ (0x1F = 0x1F \/ 0x1F = 0x21 \/ 0x1F = 0x22))
  /\ (404 <= 735 -> 0x1F <= 0x22).
Proof.
  apply (SelectTrade_GetId_monotone 404 735 0x1F 0x22); reflexivity.
Defined.

End CodecProperties.
